(** * network_update_manager: the synchronisation engine

    A shallow embedding of [app/share_manager.py] (class [ShareManager]) and
    [app/update_manager.py] (class [UpdateManager]), and the properties of the
    version gate, the per-file decision, the transfer and the status machine.

    Conventions of the embedding.
    - File names and version strings are [string]s of 8-bit characters, read
      as the code points below 256. The regular-expression class [\d] is
      the ten digits 0 to 9; [str.isdigit] accepts the superscripts two,
      three and one (178, 179, 185) as well, which [int] rejects.
    - Python integers are [N] (version components), [nat] (file sizes) and
      [Z] (timestamps, in ticks of the clock). A naive local [datetime], and
      its ISO text which orders as it does, is a [Z] too, in ticks of the
      local wall clock; [datetime.fromtimestamp] is given by the world.
    - [None] is [None]; a Python truth test [not x] on an optional string is
      [falsy x].
    - Calls to the logger are dropped: they neither change the state that is
      modelled nor raise. *)

From Stdlib Require Import ZArith NArith Ascii String List Bool Lia.
From stdpp Require Import base option list strings gmap.

Local Open Scope string_scope.
Local Open Scope list_scope.

(** The result of a call that may raise an exception. *)
Inductive outcome (A : Type) : Type :=
  | Returns (a : A)
  | Raises.
Arguments Returns {A} a.
Arguments Raises {A}.

(** ** Characters and strings *)

(** The class [\d]. *)
Definition is_digit (c : ascii) : bool :=
  (("0" <=? c) && (c <=? "9"))%char.

Definition is_sep (c : ascii) : bool :=
  (Ascii.eqb c "." || Ascii.eqb c "-")%bool.

Definition all_digits (s : string) : bool :=
  forallb is_digit (list_ascii_of_string s).

Definition has_digit (s : string) : bool :=
  existsb is_digit (list_ascii_of_string s).

(** A match of [\d+]: not empty and made of digits only. *)
Definition digit_run (s : string) : bool :=
  negb (String.eqb s "") && all_digits s.

(** The superscript digits of the first 256 code points. *)
Definition is_superscript (c : ascii) : bool :=
  (Ascii.eqb c "178" || Ascii.eqb c "179" || Ascii.eqb c "185")%bool.

(** [str.isdigit()]: not empty, and every character is a digit or a
    superscript digit. *)
Definition isdigit (s : string) : bool :=
  negb (String.eqb s "")
  && forallb (fun c => is_digit c || is_superscript c) (list_ascii_of_string s).

Definition digit_value (c : ascii) : N :=
  (N_of_ascii c - 48)%N.

(** The value of a string of digits, most significant digit first. *)
Definition int_of_digits (s : string) : N :=
  fold_left (fun acc c => (10 * acc + digit_value c)%N) (list_ascii_of_string s) 0%N.

(** The number of digits above which [int] refuses a string
    ([sys.int_info.default_max_str_digits]). *)
Definition max_str_digits : nat := 4300.

(** [int(part)] for a [part] that [str.isdigit] accepts: a superscript digit
    and a string of more than [max_str_digits] digits raise [ValueError]. *)
Definition int (part : string) : outcome N :=
  if digit_run part && Nat.leb (String.length part) max_str_digits
  then Returns (int_of_digits part)
  else Raises.

(** Python's truth test on an optional string: [None] and [""] are false. *)
Definition falsy (o : option string) : bool :=
  match o with
  | None => true
  | Some s => String.eqb s ""
  end.

(** ** Version text and version tags ([share_manager.py], lines 397-448) *)

Module Version.

(** The longest run of digits at the head of [s], and what follows it:
    the greedy [\d+] (the run may be empty; the callers test it). *)
Fixpoint span_digits (s : string) : string * string :=
  match s with
  | String c s' =>
      if is_digit c then
        let (d, r) := span_digits s' in (String c d, r)
      else ("", s)
  | EmptyString => ("", "")
  end.

(** The greedy [(sep \d+)*]: as many groups of [sep] followed by at least one
    digit as there are at the head of [s]. Every group consumes two characters
    or more, so [fuel = length s] is never exhausted. *)
Fixpoint groups (fuel : nat) (sep : ascii) (s : string) : string * string :=
  match fuel, s with
  | S fuel', String c s' =>
      if Ascii.eqb c sep then
        let (d, r) := span_digits s' in
        if String.eqb d "" then ("", s)
        else let (m, r') := groups fuel' sep r in (String c (d +:+ m), r')
      else ("", s)
  | _, _ => ("", s)
  end.

(** The match of [\d+(\.\d+)*(-\d+)*] anchored at the head of [s]. *)
Definition match_here (s : string) : option string :=
  let (d, r) := span_digits s in
  if String.eqb d "" then None
  else
    let (dots, r1) := groups (String.length r) "." r in
    let (hyphens, _) := groups (String.length r1) "-" r1 in
    Some (d +:+ dots +:+ hyphens).

(** [re.search]: the match at the leftmost position that has one. *)
Fixpoint re_search (s : string) : option string :=
  match match_here s with
  | Some m => Some m
  | None =>
      match s with
      | String _ s' => re_search s'
      | EmptyString => None
      end
  end.

(** [ShareManager._extract_version_from_filename] *)
Definition _extract_version_from_filename (filename : string) : string :=
  match re_search filename with
  | Some group1 => group1
  | None => filename
  end.

(** [re.split(r'[.-]', version_str)] *)
Fixpoint re_split (s : string) : list string :=
  match s with
  | EmptyString => [""]
  | String c s' =>
      if is_sep c then "" :: re_split s'
      else
        match re_split s' with
        | part :: parts => String c part :: parts
        | [] => [String c ""]
        end
  end.

(** The list comprehension [[int(part) for part in parts if ...]] on the
    parts kept: the first [int] that raises ends it. *)
Fixpoint int_each (parts : list string) : outcome (list N) :=
  match parts with
  | [] => Returns []
  | part :: parts' =>
      match int part with
      | Raises => Raises
      | Returns n =>
          match int_each parts' with
          | Raises => Raises
          | Returns ns => Returns (n :: ns)
          end
      end
  end.

(** The nested [parse_version] of [_compare_versions]. *)
Definition parse_version (version_str : string) : outcome (list N) :=
  int_each (List.filter isdigit (re_split version_str)).

(** The string with the components [part] and those of [rest], each after
    its separator. *)
Fixpoint join_seps (part : string) (rest : list (ascii * string)) : string :=
  match rest with
  | [] => part
  | (sep, part') :: rest' => part +:+ String sep (join_seps part' rest')
  end.


(** The loop [for i in range(min(len(local_parts), len(remote_parts)))] with
    [steps] iterations left, at index [i]. An index out of range would raise
    [IndexError], which the enclosing [except] turns into [True]. *)
Fixpoint compare_from (steps i : nat) (local_parts remote_parts : list N) : bool :=
  match steps with
  | O => Nat.ltb (List.length local_parts) (List.length remote_parts)
  | S steps' =>
      match local_parts !! i, remote_parts !! i with
      | Some l, Some r =>
          if (l <? r)%N then true
          else if (r <? l)%N then false
          else compare_from steps' (S i) local_parts remote_parts
      | _, _ => true
      end
  end.

Definition compare_parts (local_parts remote_parts : list N) : bool :=
  compare_from (min (List.length local_parts) (List.length remote_parts)) 0
    local_parts remote_parts.

(** [ShareManager._compare_versions]; an exception of [parse_version] is
    caught by the handler, which returns [True]. *)
Definition _compare_versions (local_version remote_version : option string) : bool :=
  if falsy local_version || falsy remote_version then true
  else
    match local_version, remote_version with
    | Some lv, Some rv =>
        match parse_version lv with
        | Raises => true
        | Returns local_parts =>
            match parse_version rv with
            | Raises => true
            | Returns remote_parts => compare_parts local_parts remote_parts
            end
        end
    | _, _ => true
    end.

(** The texts that [\d+(\.\d+)*(-\d+)*] matches: a run of digits, then groups
    of a dot and a run of digits, then groups of a hyphen and a run of
    digits. *)
Inductive sep_groups (sep : ascii) : string -> Prop :=
  | sep_groups_nil : sep_groups sep ""
  | sep_groups_cons : forall d m,
      digit_run d = true -> sep_groups sep m -> sep_groups sep (String sep (d +:+ m)).

Definition version_text (v : string) : Prop :=
  exists d dots hyphens,
    v = d +:+ dots +:+ hyphens
    /\ digit_run d = true /\ sep_groups "." dots /\ sep_groups "-" hyphens.

(** The first character of [s] satisfies [P]. *)
Definition head_is (P : ascii -> bool) (s : string) : bool :=
  match s with
  | String c _ => P c
  | EmptyString => false
  end.

(** The order of the specification on version tags: the first differing
    component decides, and a strict prefix is older than its extensions. *)
Inductive tag_lt : list N -> list N -> Prop :=
  | tag_lt_prefix : forall r rs, tag_lt [] (r :: rs)
  | tag_lt_head : forall l r ls rs, (l < r)%N -> tag_lt (l :: ls) (r :: rs)
  | tag_lt_tail : forall x ls rs, tag_lt ls rs -> tag_lt (x :: ls) (x :: rs).

End Version.

Import Version.

(** ** [pathlib]: the final extension of a file name *)

(** The properties [suffix] and [stem] and the method [with_suffix] of
    [PurePath], on the last component of a path, as CPython computes them: a
    leading dot and a trailing dot do not start an extension. *)

Module Pathlib.

(** [s] contains a dot. *)
Definition has_dot (s : string) : bool :=
  existsb (Ascii.eqb ".") (list_ascii_of_string s).

(** [name.rfind('.')] *)
Fixpoint rfind_dot (name : string) : option nat :=
  match name with
  | EmptyString => None
  | String c name' =>
      match rfind_dot name' with
      | Some i => Some (S i)
      | None => if Ascii.eqb c "." then Some 0 else None
      end
  end.

(** [PurePath.suffix]: the text from the last dot on, when that dot is neither
    the first nor the last character of the name; otherwise empty. *)
Definition suffix (name : string) : string :=
  match rfind_dot name with
  | Some i =>
      if Nat.ltb 0 i && Nat.ltb i (String.length name - 1)
      then substring i (String.length name - i) name
      else ""
  | None => ""
  end.

(** [PurePath.stem]: the name without its final extension. *)
Definition stem (name : string) : string :=
  substring 0 (String.length name - String.length (suffix name)) name.

(** [PurePath.with_suffix], on the last component of the path. *)
Definition with_suffix (name sfx : string) : string :=
  let old_suffix := suffix name in
  if String.eqb old_suffix "" then name +:+ sfx
  else substring 0 (String.length name - String.length old_suffix) name +:+ sfx.

End Pathlib.

(** ** The world around the engine *)

(** A local file: its bytes and [st_mtime]. *)
Record file : Type := File { data : string; mtime : Z }.

(** An entry of [SMBConnection.listPath]. *)
Record SharedFile : Type := {
  sf_filename : string;
  sf_isDirectory : bool;
  sf_file_size : nat;
  sf_create_time : Z;
  sf_last_write_time : Z
}.

(** The dictionary that [list_updates] builds for an entry, with its keys
    ['filename'], ['size'], ['create_time'] and ['last_modified']. The two
    times are local datetimes, which stand for their ISO text. *)
Record update : Type := Update {
  upd_filename : string;
  upd_size : nat;
  upd_create_time : Z;
  upd_last_modified : Z
}.

(** What the engine is given and does not change: its configuration, the
    library calls whose semantics is not part of the repository, the
    credential store, the SMB server and the faults of the local machine. *)
Record env : Type := {
  (* config *)
  share_path : string;
  version_file_pattern : string;
  app_executable_path : option string;
  (* libraries *)
  path_glob : string -> outcome (string -> bool);
  re_compile : string -> outcome (string -> bool);
  path_name : string -> string;
  isoformat : Z -> string;
  (* datetime.fromtimestamp: the local datetime of a timestamp, or an
     exception for a time that cannot be represented *)
  fromtimestamp : Z -> outcome Z;
  (* config.load_credentials() *)
  load_credentials : option string * option string;
  (* the server: connect, listPath, retrieveFile (the bytes delivered to the
     sink, and whether the call then raises), getAttributes(...).file_size *)
  smb_connect : outcome bool;
  smb_listPath : outcome (list SharedFile);
  smb_retrieveFile : string -> string * bool;
  smb_getAttributes : string -> outcome nat;
  (* the local machine: the clock, [open(path, 'wb')] and [shutil.move]
     refusing a path (a move that raises has moved nothing), the names of
     [psutil.process_iter] *)
  now : Z;
  open_raises : string -> bool;
  move_raises : string -> string -> bool;
  process_names : outcome (list string)
}.

(** The mutable part of a [ShareManager] and of the local update directory.
    [connection] is [self.connection is not None]. The directory
    [config.local_update_path] is the map [fs] from the names of its files; a
    directory that does not exist is the empty map, so that
    [mkdir(parents=True, exist_ok=True)] leaves the model unchanged. *)
Record state : Type := State {
  connection : bool;
  connected : bool;
  fs : gmap string file
}.

Definition set_connection (s : state) (b : bool) : state :=
  State b (connected s) (fs s).
Definition set_connected (s : state) (b : bool) : state :=
  State (connection s) b (fs s).
Definition set_fs (s : state) (m : gmap string file) : state :=
  State (connection s) (connected s) m.

(** [open(path, 'wb')] then writing [bytes]: the file is created or truncated. *)
Definition write_file (e : env) (path bytes : string) (s : state) : state :=
  set_fs s (<[path := File bytes (now e)]> (fs s)).

(** [Path.unlink] *)
Definition unlink (path : string) (s : state) : state :=
  set_fs s (delete path (fs s)).

(** [shutil.move(src, dst)] when it does not raise: a rename over [dst];
    moving a file onto itself changes nothing. *)
Definition move (src dst : string) (s : state) : state :=
  if String.eqb src dst then s
  else
    match fs s !! src with
    | Some f => set_fs s (<[dst := f]> (delete src (fs s)))
    | None => s
    end.

(** Python's [max(l, key=...)] on a non-empty list [best :: l]: the first
    element whose key is maximal. *)
Fixpoint max_by {A : Type} (key : A -> Z) (best : A) (l : list A) : A :=
  match l with
  | [] => best
  | x :: l' => max_by key (if (key best <? key x)%Z then x else best) l'
  end.

(** [str.replace('*', '.*')] *)
Fixpoint replace_star (pattern : string) : string :=
  match pattern with
  | EmptyString => ""
  | String c pattern' =>
      if Ascii.eqb c "*" then String "." (String "*" (replace_star pattern'))
      else String c (replace_star pattern')
  end.

(** The dictionary of version information, a missing key being [None]. *)
Record version_info : Type := VersionInfo {
  vi_local : option string;
  vi_remote : option string;
  vi_local_file : option string;
  vi_remote_file : option string
}.

(** ** [ShareManager] *)

Module ShareManager.

Import Pathlib.

(** [connect()], called without arguments as [ensure_connected] does: the
    credentials are the stored ones. *)
Definition connect (e : env) (s : state) : state * bool :=
  let '(username, password) := load_credentials e in
  if falsy username || falsy password then (s, false)
  else
    let s := set_connection s true in
    match smb_connect e with
    | Returns b => (set_connected s b, b)
    | Raises => (s, false)
    end.

Definition ensure_connected (e : env) (s : state) : state * bool :=
  if negb (connected s) || negb (connection s) then connect e s
  else (s, true).

(** The dictionary of an entry; each of the two conversions of a time may
    raise. *)
Definition to_update (e : env) (f : SharedFile) : outcome update :=
  match fromtimestamp e (sf_create_time f) with
  | Raises => Raises
  | Returns created =>
      match fromtimestamp e (sf_last_write_time f) with
      | Raises => Raises
      | Returns modified =>
          Returns (Update (sf_filename f) (sf_file_size f) created modified)
      end
  end.

Definition is_update (f : SharedFile) : bool :=
  negb (String.eqb (sf_filename f) "." || String.eqb (sf_filename f) "..")
  && negb (sf_isDirectory f).

(** The loop of [list_updates] over the entries: the first conversion that
    raises ends it. *)
Fixpoint to_updates (e : env) (files : list SharedFile) : outcome (list update) :=
  match files with
  | [] => Returns []
  | f :: files' =>
      if is_update f then
        match to_update e f with
        | Raises => Raises
        | Returns u =>
            match to_updates e files' with
            | Raises => Raises
            | Returns updates => Returns (u :: updates)
            end
        end
      else to_updates e files'
  end.

Definition list_updates (e : env) (s : state) : state * list update :=
  let '(s, ok) := ensure_connected e s in
  if negb ok then (s, [])
  else
    match smb_listPath e with
    | Returns files =>
        match to_updates e files with
        | Returns updates => (s, updates)
        | Raises => (s, [])
        end
    | Raises => (s, [])
    end.

(** What [list_updates] returns over an open session. *)
Definition listed_updates (e : env) : list update :=
  match smb_listPath e with
  | Returns files =>
      match to_updates e files with
      | Returns updates => updates
      | Raises => []
      end
  | Raises => []
  end.

Definition remote_path_of (e : env) (filename : string) : string :=
  if String.eqb (share_path e) "" then filename
  else share_path e +:+ "/" +:+ filename.

Definition _verify_file (e : env) (filename local_path : string) (s : state) : bool :=
  match fs s !! local_path with
  | None => false
  | Some f =>
      let local_size := String.length (data f) in
      match smb_getAttributes e (remote_path_of e filename) with
      | Raises => false
      | Returns remote_size =>
          if negb (Nat.eqb local_size remote_size) then false else true
      end
  end.

(** Whether [_verify_file] accepts a temporary file that holds [bytes]: the
    size that the server reports for [filename] is their number. *)
Definition size_verified (e : env) (filename bytes : string) : bool :=
  match smb_getAttributes e (remote_path_of e filename) with
  | Returns remote_size => Nat.eqb (String.length bytes) remote_size
  | Raises => false
  end.

(** [download_file(filename)], the destination being
    [Path(config.local_update_path) / filename]. [_take_ownership] changes
    the permissions of the destination, not its bytes, and its failure is
    logged and ignored. *)
Definition download_file (e : env) (filename : string) (s : state) : state * bool :=
  let '(s, ok) := ensure_connected e s in
  if negb ok then (s, false)
  else
    let remote_path := remote_path_of e filename in
    let local_path := filename in
    let temp_path := with_suffix local_path ".tmp" in
    if open_raises e temp_path then (s, false)
    else
      let '(bytes, raised) := smb_retrieveFile e remote_path in
      let s := write_file e temp_path bytes s in
      if raised then (s, false)
      else if _verify_file e filename temp_path s then
        if move_raises e temp_path local_path then (s, false)
        else (move temp_path local_path s, true)
      else
        match fs s !! temp_path with
        | Some _ => (unlink temp_path s, false)
        | None => (s, false)
        end.

Definition local_files (s : state) : list (string * file) :=
  map_to_list (fs s).

Definition _get_local_version (e : env) (s : state) : option string * option string :=
  match path_glob e (version_file_pattern e) with
  | Raises => (None, None)
  | Returns selects =>
      match List.filter (fun p => selects (fst p)) (local_files s) with
      | [] => (None, None)
      | p :: version_files =>
          let latest_file := max_by (fun p => mtime (snd p)) p version_files in
          let filename := fst latest_file in
          (Some filename, Some (_extract_version_from_filename filename))
      end
  end.

Definition _get_remote_version (e : env) (s : state)
  : state * (option string * option string) :=
  let '(s, ok) := ensure_connected e s in
  if negb ok then (s, (None, None))
  else
    let '(s, remote_files) := list_updates e s in
    match remote_files with
    | [] => (s, (None, None))
    | _ =>
        match re_compile e (replace_star (version_file_pattern e)) with
        | Raises => (s, (None, None))
        | Returns version_pattern =>
            match List.filter (fun f => version_pattern (upd_filename f)) remote_files with
            | [] => (s, (None, None))
            | f :: version_files =>
                let latest_file := max_by upd_last_modified f version_files in
                let filename := upd_filename latest_file in
                (s, (Some filename, Some (_extract_version_from_filename filename)))
            end
        end
    end.

Definition _check_version_files (e : env) (s : state) : state * (bool * version_info) :=
  let '(local_version_file, local_version) := _get_local_version e s in
  if falsy local_version_file || falsy local_version then
    (s, (true, VersionInfo None None None None))
  else
    let '(s, (remote_version_file, remote_version)) := _get_remote_version e s in
    if falsy remote_version_file || falsy remote_version then
      (s, (false, VersionInfo local_version None None None))
    else
      let need_update := _compare_versions local_version remote_version in
      (s, (need_update,
           VersionInfo local_version remote_version local_version_file remote_version_file)).

(** The version tag of a marker file, and the verdict of the version gate. *)
Definition version_tag (marker : string) : outcome (list N) :=
  parse_version (_extract_version_from_filename marker).

Definition has_newer_version (e : env) (s : state) : bool :=
  fst (snd (_check_version_files e s)).

Definition local_marker (e : env) (s : state) : option string :=
  fst (_get_local_version e s).

Definition remote_marker (e : env) (s : state) : option string :=
  fst (snd (_get_remote_version e s)).

(** [_needs_update]: [remote_time] is the local datetime of the listing and
    [local_time] the conversion of [st_mtime], which may raise; the handler
    then returns [True]. *)
Definition _needs_update (e : env) (s : state) (remote_file : update)
    (local_path : string) : bool :=
  match fs s !! local_path with
  | None => true
  | Some f =>
      if negb (Nat.eqb (upd_size remote_file) (String.length (data f))) then true
      else
        let remote_time := upd_last_modified remote_file in
        match fromtimestamp e (mtime f) with
        | Raises => true
        | Returns local_time =>
            if (local_time <? remote_time)%Z then true else false
        end
  end.

Definition check_for_updates (e : env) (s : state) : state * (bool * list update) :=
  let '(s, ok) := ensure_connected e s in
  if negb ok then (s, (false, []))
  else
    let '(s, (has_newer_version, _)) := _check_version_files e s in
    if negb has_newer_version then (s, (false, []))
    else
      let '(s, remote_files) := list_updates e s in
      match remote_files with
      | [] => (s, (false, []))
      | _ =>
          let updates_available :=
            List.filter (fun remote_file =>
                           _needs_update e s remote_file (upd_filename remote_file))
                        remote_files in
          (s, (Nat.ltb 0 (List.length updates_available), updates_available))
      end.

(** The loop of [download_updates]: the state after the downloads and
    [success_count]. *)
Fixpoint download_each (e : env) (update_list : list update) (s : state) : state * nat :=
  match update_list with
  | [] => (s, 0)
  | u :: rest =>
      let '(s, ok) := download_file e (upd_filename u) s in
      let '(s, success_count) := download_each e rest s in
      (s, if ok then S success_count else success_count)
  end.

Definition download_updates (e : env) (update_list : list update) (s : state) : state * bool :=
  let '(s, ok) := ensure_connected e s in
  if negb ok then (s, false)
  else
    match update_list with
    | [] =>
        let '(s, (has_updates, update_list)) := check_for_updates e s in
        if negb has_updates then (s, true)
        else
          let '(s, success_count) := download_each e update_list s in
          (s, Nat.eqb success_count (List.length update_list))
    | _ =>
        let '(s, success_count) := download_each e update_list s in
        (s, Nat.eqb success_count (List.length update_list))
    end.

(** [str.split(sep)] for a separator of one character. *)
Fixpoint split_on (sep : ascii) (s : string) : list string :=
  match s with
  | EmptyString => [""]
  | String c s' =>
      if Ascii.eqb c sep then "" :: split_on sep s'
      else
        match split_on sep s' with
        | part :: parts => String c part :: parts
        | [] => [String c ""]
        end
  end.

(** [sep.join(parts)] *)
Fixpoint join_with (sep : ascii) (parts : list string) : string :=
  match parts with
  | [] => ""
  | [part] => part
  | part :: parts' => part +:+ String sep (join_with sep parts')
  end.

Definition backslash : ascii := "\".

(** The number of occurrences of [c] in [s]. *)
Definition count_char (c : ascii) (s : string) : nat :=
  List.length (List.filter (Ascii.eqb c) (list_ascii_of_string s)).

(** [_parse_share_path], from [server_name], [share_name] and [share_path]
    all [None]: the three fields when the call returns. An index out of range
    and a path that is [None] raise, and the handler keeps the fields
    assigned so far. *)
Definition _parse_share_path (update_share_path : option string)
  : option string * option string * option string :=
  match update_share_path with
  | None => (None, None, None)
  | Some path =>
      let parts := split_on backslash path in
      match parts !! 2 with
      | None => (None, None, None)
      | Some server_name =>
          match parts !! 3 with
          | None => (Some server_name, None, None)
          | Some share_name =>
              (Some server_name, Some share_name,
               Some (if Nat.ltb 4 (List.length parts)
                     then join_with backslash (drop 4 parts) else ""))
          end
      end
  end.

(** [disconnect]; [close_raises] tells whether [connection.close()] raises. *)
Definition disconnect (close_raises : bool) (s : state) : state :=
  if connection s then
    if close_raises then s else set_connected s false
  else s.

(** The flag [connected] is only set on a connection object. *)
Definition session_ok (s : state) : Prop :=
  connected s = true -> connection s = true.

(** From [s] to [s'] the two session fields are kept, or a connection object
    has been created. *)
Definition session_kept (s s' : state) : Prop :=
  connection s' = true
  \/ (connection s' = connection s /\ connected s' = connected s).

(** What the server and the local machine allow for one file: the temporary
    file can be opened, the read completes, the size is verified and the move
    is not refused. *)
Definition transferable (e : env) (filename : string) : bool :=
  let temp_path := with_suffix filename ".tmp" in
  let delivered := smb_retrieveFile e (remote_path_of e filename) in
  negb (open_raises e temp_path)
  && negb (snd delivered)
  && size_verified e filename (fst delivered)
  && negb (move_raises e temp_path filename).

End ShareManager.

(** ** [UpdateManager] *)

Module UpdateManager.

Import ShareManager.

(** The values that the code assigns to [update_status]. *)
Inductive status : Type :=
  | idle | checking | downloading | up_to_date | downloaded
  | download_failed | error | update_available.

Definition status_eqb (a b : status) : bool :=
  match a, b with
  | idle, idle | checking, checking | downloading, downloading
  | up_to_date, up_to_date | downloaded, downloaded
  | download_failed, download_failed | error, error
  | update_available, update_available => true
  | _, _ => false
  end.

(** The fields of an [UpdateManager] that the cycle reads or writes, with the
    state of its [share_manager]. *)
Record manager : Type := Manager {
  update_status : status;
  last_check_time : option Z;
  version_snapshot : version_info;
  share_manager : state
}.

Definition set_status (um : manager) (st : status) : manager :=
  Manager st (last_check_time um) (version_snapshot um) (share_manager um).
Definition set_last_check_time (um : manager) (t : option Z) : manager :=
  Manager (update_status um) t (version_snapshot um) (share_manager um).
Definition set_version_info (um : manager) (vi : version_info) : manager :=
  Manager (update_status um) (last_check_time um) vi (share_manager um).
Definition set_share_manager (um : manager) (s : state) : manager :=
  Manager (update_status um) (last_check_time um) (version_snapshot um) s.

(** [__init__] *)
Definition init (s : state) : manager :=
  Manager idle None (VersionInfo None None None None) s.

Definition _is_app_running (e : env) : outcome bool :=
  if falsy (app_executable_path e) then Returns false
  else
    match app_executable_path e with
    | None => Returns false
    | Some path =>
        let app_name := path_name e path in
        match process_names e with
        | Raises => Raises
        | Returns names => Returns (existsb (String.eqb app_name) names)
        end
    end.

Definition flag_file : string := "_UPDATE_AVAILABLE".

Definition _notify_app_about_update (e : env) (um : manager) : manager :=
  if open_raises e flag_file then um
  else set_share_manager um (write_file e flag_file (isoformat e (now e)) (share_manager um)).

Definition _update_version_info (e : env) (um : manager) : manager :=
  let '(local_file, local_version) := _get_local_version e (share_manager um) in
  let '(s, (remote_file, remote_version)) := _get_remote_version e (share_manager um) in
  set_version_info (set_share_manager um s)
    (VersionInfo local_version remote_version local_file remote_file).

(** [check_and_download_updates]: the manager when the call returns, and the
    value returned. *)
Definition check_and_download_updates (e : env) (um : manager) : manager * bool :=
  let um := set_status um checking in
  let um := set_last_check_time um (Some (now e)) in
  match _is_app_running e with
  | Raises => (set_status um error, false)
  | Returns app_running =>
      let '(s, (has_updates, updates_list)) := check_for_updates e (share_manager um) in
      let um := set_share_manager um s in
      let um := _update_version_info e um in
      if negb has_updates then (set_status um up_to_date, false)
      else
        let um := set_status um downloading in
        let '(s, success) := download_updates e updates_list (share_manager um) in
        let um := set_share_manager um s in
        if success then
          let um := set_status um downloaded in
          let um := _update_version_info e um in
          let um := if app_running then _notify_app_about_update e um else um in
          (um, true)
        else (set_status um download_failed, false)
  end.

Definition in_progress (st : status) : bool :=
  status_eqb st checking || status_eqb st downloading.

(** [force_update_check]: the value returned; [true] means that a thread
    running [check_and_download_updates] has been started. *)
Definition force_update_check (um : manager) : bool :=
  if in_progress (update_status um) then false else true.

(** A job of the [schedule] module: [every(n).hours], [every(n).minutes] or
    [every(n).seconds], running [check_and_download_updates]. *)
Inductive job : Type :=
  | every_hours (n : Z)
  | every_minutes (n : Z)
  | every_seconds (n : Z).

(** [_setup_scheduler], with [config.check_interval] in seconds; [//] and [%]
    round towards minus infinity, as [Z.div] and [Z.modulo] do for a positive
    divisor. *)
Definition _setup_scheduler (check_interval : Z) : job :=
  let hours := (check_interval / 3600)%Z in
  let minutes := ((check_interval mod 3600) / 60)%Z in
  if (0 <? hours)%Z then every_hours hours
  else if (0 <? minutes)%Z then every_minutes minutes
  else every_seconds (Z.max check_interval 30).

(** The time between two runs of a job, in seconds. *)
Definition period (j : job) : Z :=
  match j with
  | every_hours n => (n * 3600)%Z
  | every_minutes n => (n * 60)%Z
  | every_seconds n => n
  end.

(** Python's truth test on a tuple of two components: it is not empty. *)
Definition truthy_pair {A B : Type} (p : A * B) : bool := true.

(** [check_updates]: the manager when the call returns, and the value
    returned. The condition of the [if] is the tuple that
    [check_for_updates] returns. *)
Definition check_updates (e : env) (um : manager) : manager * bool :=
  let um := set_status um checking in
  let um := _update_version_info e um in
  let '(s, result) := check_for_updates e (share_manager um) in
  let um := set_share_manager um s in
  let '(um, value) :=
    if truthy_pair result then (set_status um update_available, true)
    else (set_status um up_to_date, false) in
  (set_last_check_time um (Some (now e)), value).

End UpdateManager.

(** ** Concrete worlds

    A small instance of the libraries and of the server, for the runs that
    the file evaluates. *)

Module Scenario.

Import ShareManager UpdateManager.

Definition to_lower (c : ascii) : ascii :=
  if (("A" <=? c) && (c <=? "Z"))%char
  then ascii_of_nat (nat_of_ascii c + 32) else c.

(** [fnmatch] for a pattern of plain characters and [*]. *)
Fixpoint glob (pattern : string) : string -> bool :=
  match pattern with
  | EmptyString => fun name => String.eqb name ""
  | String c pattern' =>
      if Ascii.eqb c "*" then
        fix star (name : string) : bool :=
          glob pattern' name
          || match name with
             | String _ name' => star name'
             | EmptyString => false
             end
      else
        fun name =>
          match name with
          | String d name' => Ascii.eqb c d && glob pattern' name'
          | EmptyString => false
          end
  end.

(** [re.compile(pattern, re.IGNORECASE).match] for a pattern of plain
    characters, [.] and [.*]; the match is anchored at the start only. *)
Fixpoint re_prefix (pattern : string) : string -> bool :=
  match pattern with
  | EmptyString => fun _ => true
  | String c pattern' =>
      if Ascii.eqb c "." then
        match pattern' with
        | String c' pattern'' =>
            if Ascii.eqb c' "*" then
              fix star (name : string) : bool :=
                re_prefix pattern'' name
                || match name with
                   | String _ name' => star name'
                   | EmptyString => false
                   end
            else
              fun name =>
                match name with
                | String _ name' => re_prefix pattern' name'
                | EmptyString => false
                end
        | EmptyString =>
            fun name => match name with String _ _ => true | EmptyString => false end
        end
      else
        fun name =>
          match name with
          | String d name' => Ascii.eqb (to_lower c) (to_lower d) && re_prefix pattern' name'
          | EmptyString => false
          end
  end.

(** A server that accepts the stored credentials and serves [listing]; a read
    of [path] delivers [stream path], and [getAttributes] reports the size
    of the listed entry. *)
Definition listed_size (listing : list SharedFile) (path : string) : outcome nat :=
  match List.find (fun f => String.eqb (sf_filename f) path) listing with
  | Some f => Returns (sf_file_size f)
  | None => Raises
  end.

Definition world (credentials : option string * option string)
    (listing : list SharedFile) (stream : string -> string * bool) (clock : Z) : env :=
  {| share_path := "";
     version_file_pattern := "SIGES *.txt";
     app_executable_path := None;
     path_glob := fun pattern => Returns (glob pattern);
     re_compile := fun pattern => Returns (re_prefix pattern);
     path_name := fun path => path;
     isoformat := fun _ => "1970-01-01T00:00:00";
     fromtimestamp := fun t => Returns t;
     load_credentials := credentials;
     smb_connect := Returns true;
     smb_listPath := Returns listing;
     smb_retrieveFile := stream;
     smb_getAttributes := listed_size listing;
     now := clock;
     open_raises := fun _ => false;
     move_raises := fun _ _ => false;
     process_names := Returns [] |}.

Definition stored : option string * option string := (Some "svc", Some "secret").

Definition entry (name : string) (size : nat) (modified : Z) : SharedFile :=
  {| sf_filename := name; sf_isDirectory := false; sf_file_size := size;
     sf_create_time := modified; sf_last_write_time := modified |}.

Definition dir_entry (name : string) : SharedFile :=
  {| sf_filename := name; sf_isDirectory := true; sf_file_size := 0;
     sf_create_time := 0; sf_last_write_time := 0 |}.

Definition offline (m : gmap string file) : state := State false false m.
Definition online (m : gmap string file) : state := State true true m.

(** A read that delivers as many bytes as the listing announces. *)
Fixpoint payload (n : nat) : string :=
  match n with
  | O => ""
  | S n' => String "x" (payload n')
  end.

Definition served (listing : list SharedFile) (path : string) : string * bool :=
  match List.find (fun f => String.eqb (sf_filename f) path) listing with
  | Some f => (payload (sf_file_size f), false)
  | None => ("", true)
  end.

(** The share of the end-to-end scenario: a marker and a data file. *)
Definition first_listing : list SharedFile :=
  [dir_entry "."; dir_entry ".."; entry "SIGES 1.0.0.txt" 10 10; entry "data.bin" 100 10].

(** A manager whose cycle is downloading, started at time 100. *)
Definition busy (s : state) : manager :=
  Manager downloading (Some 100%Z) (VersionInfo None None None None) s.

(** No stored credentials. *)
Definition no_credentials : option string * option string := (None, None).

(** The superscript two, and two version strings and a marker name with a
    component made of it. *)
Definition superscript_two : ascii := "178".

Definition squared_rc1 : string := "1." +:+ String superscript_two "-rc1".
Definition squared_marker : string := "SIGES ." +:+ String superscript_two ".txt".

Definition squared_listing : list SharedFile :=
  [entry squared_marker 6 10].

(** A local marker without a number, and a numbered marker on the share. *)
Definition unnumbered_dir : gmap string file :=
  {[ "SIGES abc.txt" := File "marker" 5 ]}.

Definition numbered_listing : list SharedFile :=
  [entry "SIGES 1.0.txt" 6 10].

(** A local marker of version 1.0 and a marker of version 1.1 on the share. *)
Definition marked_dir : gmap string file :=
  {[ "SIGES 1.0.txt" := File "marker" 5 ]}.

Definition newer_listing : list SharedFile :=
  [entry "SIGES 1.1.txt" 6 10; entry "data.bin" 5 10].

(** A share whose marker has the version of the local one, with a data file
    that the local directory lacks. *)
Definition current_listing : list SharedFile :=
  [entry "SIGES 1.0.txt" 6 10; entry "data.bin" 5 10].

(** A manager that has not run a cycle yet, over an open session. *)
Definition fresh (m : gmap string file) : manager := init (online m).

(** A directory without marker whose [data.bin] is as large as, and not older
    than, the [data.bin] of the share. *)
Definition unmarked_dir : gmap string file :=
  {[ "data.bin" := File "bytes" 50 ]}.

Definition data_listing : list SharedFile :=
  [dir_entry "."; dir_entry ".."; entry "data.bin" 5 10].

(** The same world with a [shutil.move] that refuses every path. *)
Definition with_move_fault (e : env) : env :=
  {| share_path := share_path e;
     version_file_pattern := version_file_pattern e;
     app_executable_path := app_executable_path e;
     path_glob := path_glob e;
     re_compile := re_compile e;
     path_name := path_name e;
     isoformat := isoformat e;
     fromtimestamp := fromtimestamp e;
     load_credentials := load_credentials e;
     smb_connect := smb_connect e;
     smb_listPath := smb_listPath e;
     smb_retrieveFile := smb_retrieveFile e;
     smb_getAttributes := smb_getAttributes e;
     now := now e;
     open_raises := open_raises e;
     move_raises := fun _ _ => true;
     process_names := process_names e |}.

(** The same world with a configured application that is running. *)
Definition with_app_running (e : env) : env :=
  {| share_path := share_path e;
     version_file_pattern := version_file_pattern e;
     app_executable_path := Some "C:\Apps\siges.exe";
     path_glob := path_glob e;
     re_compile := re_compile e;
     path_name := fun _ => "siges.exe";
     isoformat := isoformat e;
     fromtimestamp := fromtimestamp e;
     load_credentials := load_credentials e;
     smb_connect := smb_connect e;
     smb_listPath := smb_listPath e;
     smb_retrieveFile := smb_retrieveFile e;
     smb_getAttributes := smb_getAttributes e;
     now := now e;
     open_raises := open_raises e;
     move_raises := move_raises e;
     process_names := Returns ["explorer.exe"; "siges.exe"] |}.

(** A read that delivers two bytes and then loses the connection, and a read
    that delivers five bytes. *)
Definition dropped : string -> string * bool := fun _ => ("ne", true).
Definition complete : string -> string * bool := fun _ => ("newer", false).

(** The share holds [patch.tmp] and [data.bin]; both exist locally. *)
Definition share_listing : list SharedFile :=
  [entry "patch.tmp" 5 10; entry "data.bin" 5 10].

Definition local_dir : gmap string file :=
  {[ "patch.tmp" := File "older" 5; "data.bin" := File "older" 5 ]}.

(** The share reports four bytes for [patch.tmp]: the five bytes read fail
    the verification. *)
Definition short_listing : list SharedFile :=
  [entry "patch.tmp" 4 10].

End Scenario.

(** * Properties *)

Import Version Pathlib ShareManager UpdateManager Scenario.

(** ** The order on version tags *)

Section TagOrder.

Lemma tag_lt_irrefl (a : list N) : ~ tag_lt a a.
Proof.
  induction a as [|x a IH]; intros H; inversion H; subst; auto; lia.
Qed.

Lemma tag_lt_trans (a b c : list N) : tag_lt a b -> tag_lt b c -> tag_lt a c.
Proof.
  intros Hab; revert c.
  induction Hab; intros c Hbc; inversion Hbc; subst;
    solve [apply tag_lt_prefix | apply tag_lt_head; lia | apply tag_lt_tail; auto].
Qed.

Lemma tag_lt_total (a b : list N) : tag_lt a b \/ a = b \/ tag_lt b a.
Proof.
  revert b; induction a as [|x a IH]; intros [|y b].
  - auto.
  - left; constructor.
  - right; right; constructor.
  - destruct (N.lt_trichotomy x y) as [Hlt|[->|Hgt]].
    + left; now constructor.
    + destruct (IH b) as [H|[->|H]]; [left|auto|right; right]; now constructor.
    + right; right; now constructor.
Qed.

(** The order in the words of the specification: either the tags agree up to
    a position where the second has the larger component, or the first is a
    strict prefix of the second. *)
Lemma tag_lt_first_difference (a b : list N) :
  tag_lt a b <->
  (exists p x y a' b', a = p ++ x :: a' /\ b = p ++ y :: b' /\ (x < y)%N)
  \/ (exists y b', b = a ++ y :: b').
Proof.
  split.
  - induction 1 as [r rs|l r ls rs Hlt|x ls rs _ IH].
    + right; exists r, rs; reflexivity.
    + left; exists [], l, r, ls, rs; auto.
    + destruct IH as [(p & u & v & a' & b' & -> & -> & Huv)|(y & b' & ->)].
      * left; exists (x :: p), u, v, a', b'; auto.
      * right; exists y, b'; reflexivity.
  - intros [(p & x & y & a' & b' & -> & -> & Hxy)|(y & b' & ->)].
    + induction p; simpl; now constructor.
    + induction a; simpl; now constructor.
Qed.

Lemma compare_from_app (l : list N) :
  forall r pl pr,
    List.length pl = List.length pr ->
    compare_from (min (List.length l) (List.length r)) (List.length pl)
      (pl ++ l) (pr ++ r) = true <-> tag_lt l r.
Proof.
  induction l as [|x l IH]; intros r pl pr Hlen.
  - cbn [List.length min compare_from].
    rewrite !length_app, Hlen; cbn [List.length].
    rewrite Nat.ltb_lt. destruct r; cbn [List.length].
    + split; [lia|intros H; inversion H].
    + split; [constructor|lia].
  - destruct r as [|y r].
    + cbn [List.length min compare_from].
      rewrite !length_app, Hlen; cbn [List.length].
      rewrite Nat.ltb_lt. split; [lia|intros H; inversion H].
    + cbn [List.length min compare_from].
      rewrite (list_lookup_middle pl l x (List.length pl) eq_refl).
      rewrite (list_lookup_middle pr r y (List.length pl) Hlen).
      destruct (N.ltb_spec x y) as [Hxy|Hxy].
      { split; [now constructor|reflexivity]. }
      destruct (N.ltb_spec y x) as [Hyx|Hyx].
      { split; [discriminate|]. intros H; inversion H; subst; lia. }
      assert (x = y) as -> by lia.
      replace (pl ++ y :: l) with ((pl ++ [y]) ++ l) by now rewrite <- app_assoc.
      replace (pr ++ y :: r) with ((pr ++ [y]) ++ r) by now rewrite <- app_assoc.
      replace (S (List.length pl)) with (List.length (pl ++ [y]))
        by (rewrite length_app; cbn; lia).
      rewrite IH by (rewrite !length_app; cbn; lia).
      split; [now constructor|].
      intros H; inversion H; subst; [lia|assumption].
Qed.

Lemma compare_parts_tag_lt (a b : list N) :
  compare_parts a b = true <-> tag_lt a b.
Proof. exact (compare_from_app a b [] [] eq_refl). Qed.

Lemma compare_parts_refl (a : list N) : compare_parts a a = false.
Proof.
  destruct (compare_parts a a) eqn:E; [|reflexivity].
  apply compare_parts_tag_lt in E. now apply tag_lt_irrefl in E.
Qed.

Lemma falsy_Some (s : string) : s <> "" -> falsy (Some s) = false.
Proof. intros H; cbn. now apply String.eqb_neq. Qed.

Lemma _compare_versions_parts (lv rv : string) (a b : list N) :
  lv <> "" -> rv <> "" ->
  parse_version lv = Returns a -> parse_version rv = Returns b ->
  _compare_versions (Some lv) (Some rv) = compare_parts a b.
Proof.
  intros Hl Hr Ha Hb. unfold _compare_versions.
  now rewrite (falsy_Some lv Hl), (falsy_Some rv Hr), Ha, Hb.
Qed.

Lemma _compare_versions_raises (lv rv : string) :
  lv <> "" -> rv <> "" ->
  parse_version lv = Raises \/ parse_version rv = Raises ->
  _compare_versions (Some lv) (Some rv) = true.
Proof.
  intros Hl Hr H. unfold _compare_versions.
  rewrite (falsy_Some lv Hl), (falsy_Some rv Hr). cbn [orb].
  destruct H as [-> | ->]; [reflexivity|]. now destruct (parse_version lv).
Qed.

End TagOrder.

(** ** Strings *)

Section Strings.

Lemma app_String (c : ascii) (a b : string) : String c a +:+ b = String c (a +:+ b).
Proof. reflexivity. Qed.

Lemma app_empty_l (a : string) : "" +:+ a = a.
Proof. reflexivity. Qed.

Lemma app_empty_r (a : string) : a +:+ "" = a.
Proof. induction a as [|c a IH]; [reflexivity|]. now rewrite app_String, IH. Qed.

Lemma app_assoc_s (a b c : string) : (a +:+ b) +:+ c = a +:+ b +:+ c.
Proof. induction a as [|x a IH]; [reflexivity|]. now rewrite !app_String, IH. Qed.

Lemma length_app_s (a b : string) :
  String.length (a +:+ b) = String.length a + String.length b.
Proof. induction a as [|x a IH]; [reflexivity|]. rewrite app_String; cbn; now rewrite IH. Qed.

Lemma eqb_empty_false (c : ascii) (a : string) : String.eqb (String c a) "" = false.
Proof. reflexivity. Qed.

Lemma all_digits_String (c : ascii) (a : string) :
  all_digits (String c a) = is_digit c && all_digits a.
Proof. reflexivity. Qed.

Lemma has_digit_String (c : ascii) (a : string) :
  has_digit (String c a) = is_digit c || has_digit a.
Proof. reflexivity. Qed.

Lemma digit_run_inv (d : string) :
  digit_run d = true ->
  exists c d', d = String c d' /\ is_digit c = true /\ all_digits d' = true.
Proof.
  destruct d as [|c d']; [discriminate|].
  unfold digit_run. rewrite eqb_empty_false, all_digits_String. cbn [negb andb].
  intros [Hc Hd]%andb_prop. now exists c, d'.
Qed.

Lemma digit_run_intro (c : ascii) (d : string) :
  is_digit c = true -> all_digits d = true -> digit_run (String c d) = true.
Proof.
  intros Hc Hd. unfold digit_run.
  now rewrite eqb_empty_false, all_digits_String, Hc, Hd.
Qed.

Lemma all_digits_app (a b : string) :
  all_digits (a +:+ b) = all_digits a && all_digits b.
Proof.
  induction a as [|x a IH]; [reflexivity|].
  now rewrite app_String, !all_digits_String, IH, andb_assoc.
Qed.

Lemma digit_not_sep (c : ascii) : is_digit c = true -> is_sep c = false.
Proof.
  unfold is_digit, is_sep. intros H.
  destruct (Ascii.eqb_spec c ".") as [->|_]; [discriminate|].
  destruct (Ascii.eqb_spec c "-") as [->|_]; [discriminate|reflexivity].
Qed.

Lemma list_ascii_of_string_app (a b : string) :
  list_ascii_of_string (a +:+ b) = list_ascii_of_string a ++ list_ascii_of_string b.
Proof.
  induction a as [|c a IH]; [reflexivity|]. rewrite app_String. cbn. now rewrite IH.
Qed.

Lemma all_digits_no_sep (d : string) :
  all_digits d = true -> existsb is_sep (list_ascii_of_string d) = false.
Proof.
  induction d as [|c d IH]; [reflexivity|]. rewrite all_digits_String.
  intros [Hc Hd]%andb_prop. cbn. now rewrite (digit_not_sep c Hc), (IH Hd).
Qed.

Lemma digit_run_all_digits (d : string) : digit_run d = true -> all_digits d = true.
Proof. unfold digit_run. now intros [_ H]%andb_prop. Qed.

(** A run of digits is accepted by [str.isdigit]. *)
Lemma digit_run_isdigit (d : string) : digit_run d = true -> isdigit d = true.
Proof.
  unfold digit_run, isdigit, all_digits. intros [Hne Hd]%andb_prop. rewrite Hne.
  cbn [andb]. induction (list_ascii_of_string d) as [|c l IH]; [reflexivity|].
  cbn in *. apply andb_prop in Hd as [Hc Hl]. now rewrite Hc, (IH Hl).
Qed.

End Strings.

(** ** The version text of a file name *)

Section VersionText.

Lemma span_digits_spec (s : string) :
  forall d r, span_digits s = (d, r) ->
    s = d +:+ r /\ all_digits d = true /\ head_is is_digit r = false.
Proof.
  induction s as [|c s IH]; intros d r H; cbn in H.
  - now inversion H.
  - destruct (is_digit c) eqn:Hc.
    + destruct (span_digits s) as [d0 r0]. inversion H; subst.
      destruct (IH d0 r eq_refl) as (-> & Hd & Hr).
      rewrite app_String, all_digits_String, Hc, Hd. auto.
    + inversion H; subst. cbn. auto.
Qed.

(** A run of digits at the head of [s] is the greedy one, or a shorter one
    that a digit follows. *)
Lemma span_digits_longest (d' : string) :
  forall s t d r,
    all_digits d' = true -> s = d' +:+ t -> span_digits s = (d, r) ->
    (d' = d /\ t = r)
    \/ (String.length d' < String.length d /\ head_is is_digit t = true).
Proof.
  induction d' as [|c d' IH]; intros s t d r Hd' -> H.
  - rewrite app_empty_l in H. destruct (span_digits_spec _ _ _ H) as (Hs & Hd & Hr).
    destruct d as [|x d].
    + rewrite app_empty_l in Hs. auto.
    + right. subst t. rewrite app_String. cbn.
      rewrite all_digits_String in Hd. apply andb_prop in Hd as [-> _].
      split; [lia|reflexivity].
  - rewrite all_digits_String in Hd'. apply andb_prop in Hd' as [Hc Hd'].
    rewrite app_String in H. cbn in H. rewrite Hc in H.
    destruct (span_digits (d' +:+ t)) as [d0 r0] eqn:E. inversion H; subst.
    destruct (IH _ t d0 r Hd' eq_refl E) as [[-> ->]|[Hlt Ht]]; [auto|].
    right. cbn. split; [lia|assumption].
Qed.

Lemma sep_groups_head (sep : ascii) (g : string) :
  sep_groups sep g -> g = "" \/ exists g', g = String sep g'.
Proof. destruct 1; [auto|right; eauto]. Qed.

Lemma sep_groups_no_digit_head (sep : ascii) (g t : string) :
  is_digit sep = false -> sep_groups sep g ->
  head_is is_digit (g +:+ t) = true -> g = "" /\ head_is is_digit t = true.
Proof.
  intros Hsep Hg H. destruct (sep_groups_head _ _ Hg) as [->|[g' ->]].
  - auto.
  - rewrite app_String in H. cbn in H. congruence.
Qed.

Lemma groups_spec (sep : ascii) (fuel : nat) :
  forall s m r,
    String.length s <= fuel -> groups fuel sep s = (m, r) ->
    s = m +:+ r /\ sep_groups sep m.
Proof.
  induction fuel as [|fuel IH]; intros s m r Hfuel H.
  - cbn in H. inversion H; subst. split; [reflexivity|constructor].
  - destruct s as [|c s]; cbn in H.
    { inversion H; subst. split; [reflexivity|constructor]. }
    destruct (Ascii.eqb_spec c sep) as [->|Hne].
    2:{ inversion H; subst. split; [reflexivity|constructor]. }
    destruct (span_digits s) as [d r0] eqn:E.
    destruct (span_digits_spec _ _ _ E) as (-> & Hd & Hr0).
    destruct d as [|x d].
    { cbn in H. inversion H; subst. split; [reflexivity|constructor]. }
    rewrite eqb_empty_false in H.
    destruct (groups fuel sep r0) as [m0 r1] eqn:G. inversion H; subst.
    cbn in Hfuel. rewrite length_app_s in Hfuel. cbn in Hfuel.
    assert (Hf : String.length r0 <= fuel) by lia.
    destruct (IH r0 m0 r Hf G) as (-> & Hm0).
    split.
    + now rewrite !app_String, !app_assoc_s.
    + constructor; [|assumption].
      rewrite all_digits_String in Hd. apply andb_prop in Hd as [Hx Hd].
      now apply digit_run_intro.
Qed.

(** Groups at the head of [s] are the greedy ones, or fewer, and then what
    follows them starts with a digit or with the separator. *)
Lemma groups_longest (sep : ascii) (g : string) :
  is_digit sep = false -> sep_groups sep g ->
  forall fuel s t m r,
    String.length s <= fuel -> s = g +:+ t -> groups fuel sep s = (m, r) ->
    (g = m /\ t = r)
    \/ (String.length g < String.length m
        /\ (head_is is_digit t = true \/ head_is (Ascii.eqb sep) t = true)).
Proof.
  intros Hsep Hg. induction Hg as [|d' g' Hd' Hg' IH]; intros fuel s t m r Hfuel -> H.
  - rewrite app_empty_l in H. destruct (groups_spec _ _ _ _ _ Hfuel H) as (Hs & Hm).
    rewrite app_empty_l in Hs.
    destruct (sep_groups_head _ _ Hm) as [->|[m' ->]].
    + auto.
    + right. subst t. rewrite app_String. cbn. rewrite Ascii.eqb_refl.
      split; [lia|auto].
  - rewrite app_String, app_assoc_s in Hfuel, H.
    destruct fuel as [|fuel]; [cbn in Hfuel; lia|].
    cbn in H. rewrite Ascii.eqb_refl in H.
    destruct (span_digits (d' +:+ g' +:+ t)) as [d r0] eqn:E.
    destruct (digit_run_inv _ Hd') as (c & d0 & -> & Hc & Hd0).
    assert (Hall : all_digits (String c d0) = true)
      by now rewrite all_digits_String, Hc, Hd0.
    destruct (span_digits_longest _ _ _ _ _ Hall eq_refl E) as [[<- <-]|[Hlt Hhead]].
    + rewrite eqb_empty_false in H.
      destruct (groups fuel sep (g' +:+ t)) as [m0 r1] eqn:G. inversion H; subst.
      cbn in Hfuel. rewrite app_String in Hfuel. cbn in Hfuel.
      rewrite !length_app_s in Hfuel.
      assert (Hf : String.length (g' +:+ t) <= fuel) by (rewrite length_app_s; lia).
      destruct (IH fuel _ t m0 r Hf eq_refl G) as [[-> ->]|[Hlt Ht]]; [auto|].
      right. split; [|assumption].
      cbn. rewrite !length_app_s. cbn. lia.
    + destruct (sep_groups_no_digit_head _ _ _ Hsep Hg' Hhead) as [-> Ht].
      destruct d as [|x d]; [cbn in Hlt; lia|].
      rewrite eqb_empty_false in H.
      destruct (groups fuel sep r0) as [m0 r1]. inversion H; subst.
      right. split; [|auto].
      rewrite app_empty_r. cbn. rewrite length_app_s. cbn in Hlt. cbn. lia.
Qed.

End VersionText.

Section Extraction.

Lemma match_here_no_digit (s : string) :
  head_is is_digit s = false -> match_here s = None.
Proof.
  intros H. unfold match_here. destruct s as [|c s]; [reflexivity|].
  cbn in H. cbn. now rewrite H.
Qed.

Lemma match_here_digit (s : string) :
  head_is is_digit s = true -> exists m, match_here s = Some m.
Proof.
  intros H. unfold match_here. destruct s as [|c s]; [discriminate|].
  cbn in H. cbn. rewrite H. destruct (span_digits s) as [d r].
  rewrite eqb_empty_false.
  destruct (groups (String.length r) "." r) as [dots r1].
  destruct (groups (String.length r1) "-" r1) as [hyphens r2]. eauto.
Qed.

Lemma match_here_spec (s m : string) :
  match_here s = Some m -> version_text m /\ exists post, s = m +:+ post.
Proof.
  unfold match_here. destruct (span_digits s) as [d r] eqn:E.
  destruct (span_digits_spec _ _ _ E) as (-> & Hd & _).
  destruct d as [|c d]; [discriminate|]. rewrite eqb_empty_false.
  destruct (groups (String.length r) "." r) as [dots r1] eqn:G1.
  destruct (groups (String.length r1) "-" r1) as [hyphens r2] eqn:G2.
  destruct (groups_spec _ _ _ _ _ (le_n _) G1) as (-> & Hdots).
  destruct (groups_spec _ _ _ _ _ (le_n _) G2) as (-> & Hhyphens).
  intros [= <-]. split.
  - exists (String c d), dots, hyphens.
    split; [reflexivity|split; [|split; assumption]].
    rewrite all_digits_String in Hd. apply andb_prop in Hd as [Hc Hd].
    now apply digit_run_intro.
  - exists r2. now rewrite !app_assoc_s.
Qed.

(** The greedy match is the longest text of the pattern at the head of [s]. *)
Lemma match_here_longest (s m : string) :
  match_here s = Some m ->
  forall v post, version_text v -> s = v +:+ post ->
    String.length v <= String.length m.
Proof.
  unfold match_here. destruct (span_digits s) as [d r] eqn:E.
  destruct d as [|c d]; [discriminate|]. rewrite eqb_empty_false.
  destruct (groups (String.length r) "." r) as [dots r1] eqn:G1.
  destruct (groups (String.length r1) "-" r1) as [hyphens r2] eqn:G2.
  intros [= <-] v post (d' & dots' & hyphens' & -> & Hd' & Hdots' & Hhyphens') Hs.
  rewrite !app_assoc_s in Hs. rewrite !length_app_s.
  destruct (digit_run_inv _ Hd') as (c' & d0 & -> & Hc' & Hd0).
  assert (Hall : all_digits (String c' d0) = true)
    by now rewrite all_digits_String, Hc', Hd0.
  destruct (span_digits_longest _ _ _ _ _ Hall Hs E) as [[Hd Hr]|[Hlt Hhead]].
  - rewrite Hd.
    destruct (groups_longest "." dots' eq_refl Hdots' _ _ _ _ _ (le_n _)
                (eq_sym Hr) G1) as [[-> Hr1]|[Hlt Hhead]].
    + destruct (groups_longest "-" hyphens' eq_refl Hhyphens' _ _ _ _ _ (le_n _)
                  (eq_sym Hr1) G2) as [[-> _]|[Hlt _]]; lia.
    + assert (hyphens' = "") as ->; [|cbn; lia].
      destruct (sep_groups_head _ _ Hhyphens') as [->|[h ->]]; [reflexivity|].
      rewrite app_String in Hhead. cbn in Hhead. destruct Hhead; discriminate.
  - destruct (sep_groups_no_digit_head "." dots' _ eq_refl Hdots' Hhead) as [-> Hhead'].
    destruct (sep_groups_no_digit_head "-" hyphens' _ eq_refl Hhyphens' Hhead') as [-> _].
    cbn [String.length] in *. lia.
Qed.

Lemma re_search_unfold (s : string) :
  re_search s =
  match match_here s with
  | Some m => Some m
  | None => match s with String _ s' => re_search s' | EmptyString => None end
  end.
Proof. destruct s; reflexivity. Qed.

Lemma re_search_none (s : string) : has_digit s = false -> re_search s = None.
Proof.
  induction s as [|c s IH]; intros H; rewrite re_search_unfold.
  - reflexivity.
  - rewrite has_digit_String in H. apply orb_false_elim in H as [Hc Hs].
    rewrite match_here_no_digit by exact Hc. auto.
Qed.

Lemma re_search_skip (pre s : string) :
  has_digit pre = false -> re_search (pre +:+ s) = re_search s.
Proof.
  induction pre as [|c pre IH]; intros H; [reflexivity|].
  rewrite has_digit_String in H. apply orb_false_elim in H as [Hc Hpre].
  rewrite app_String, re_search_unfold.
  rewrite match_here_no_digit by exact Hc. auto.
Qed.

Lemma re_search_here (s : string) :
  head_is is_digit s = true -> re_search s = match_here s.
Proof.
  intros H. rewrite re_search_unfold.
  destruct (match_here_digit s H) as [m ->]. reflexivity.
Qed.

End Extraction.

(** C8 (amended). The version text of a file name without a digit is the
    file name itself. Otherwise it is the match of the pattern at the
    leftmost digit of the name: a text of the pattern that starts there, and
    the longest such text at that position. A longer run further to the
    right is not looked at. *)
Theorem C8_extract_leftmost_match (filename : string) :
  (has_digit filename = false ->
   _extract_version_from_filename filename = filename)
  /\ (forall pre s,
         filename = pre +:+ s ->
         has_digit pre = false -> head_is is_digit s = true ->
         version_text (_extract_version_from_filename filename)
         /\ (exists post, s = _extract_version_from_filename filename +:+ post)
         /\ (forall v post,
                version_text v -> s = v +:+ post ->
                String.length v
                <= String.length (_extract_version_from_filename filename))).
Proof.
  unfold _extract_version_from_filename. split.
  - intros H. now rewrite re_search_none.
  - intros pre s -> Hpre Hs.
    rewrite re_search_skip, re_search_here by assumption.
    destruct (match_here_digit s Hs) as [m Hm]. rewrite Hm.
    destruct (match_here_spec _ _ Hm) as [Hv Hpost].
    split; [assumption|split; [assumption|]].
    exact (match_here_longest _ _ Hm).
Qed.

Lemma C8_witness :
  has_digit "SIGES " = false /\ head_is is_digit "20.0.20-24.txt" = true
  /\ version_text (_extract_version_from_filename "SIGES 20.0.20-24.txt")
  /\ _extract_version_from_filename "SIGES 20.0.20-24.txt" = "20.0.20-24".
Proof.
  split; [reflexivity|split; [reflexivity|split; [|reflexivity]]].
  exact (proj1 (proj2 (C8_extract_leftmost_match "SIGES 20.0.20-24.txt")
                  "SIGES " "20.0.20-24.txt" eq_refl eq_refl eq_refl)).
Defined.

Lemma version_text_example : version_text "20.0.20-24".
Proof.
  exists "20", ".0.20", "-24".
  split; [reflexivity|split; [reflexivity|split]].
  - apply (sep_groups_cons "." "0" ".20"); [reflexivity|].
    apply (sep_groups_cons "." "20" ""); [reflexivity|constructor].
  - apply (sep_groups_cons "-" "24" ""); [reflexivity|constructor].
Qed.

(** C8, as stated, fails: the name below holds the run 20.0.20-24, and the
    version text extracted from it is the shorter run 2 to its left. *)
Lemma C8_counterexample :
  ~ (forall filename pre v post,
        filename = pre +:+ v +:+ post -> version_text v ->
        String.length v <= String.length (_extract_version_from_filename filename)).
Proof.
  intros H.
  specialize (H "SIGES v2 20.0.20-24.txt" "SIGES v2 " "20.0.20-24" ".txt"
                eq_refl version_text_example).
  vm_compute in H. lia.
Qed.

(** ** The parser of [_compare_versions] *)

Section Parser.

Lemma re_split_nonempty (s : string) : re_split s <> [].
Proof. induction s as [|c s IH]; cbn; [|destruct (is_sep c), (re_split s)]; congruence. Qed.

(** A string without separator is its only component. *)
Lemma re_split_plain (s : string) :
  existsb is_sep (list_ascii_of_string s) = false -> re_split s = [s].
Proof.
  induction s as [|c s IH]; [reflexivity|]. cbn.
  intros [Hc Hs]%orb_false_elim. now rewrite Hc, (IH Hs).
Qed.

(** A separator ends a component and starts the next one. *)
Lemma re_split_sep (a b : string) (c : ascii) :
  existsb is_sep (list_ascii_of_string a) = false -> is_sep c = true ->
  re_split (a +:+ String c b) = a :: re_split b.
Proof.
  intros Ha Hc. induction a as [|x a IH].
  - rewrite app_empty_l. cbn. now rewrite Hc.
  - cbn in Ha. apply orb_false_elim in Ha as [Hx Ha].
    rewrite app_String. cbn. now rewrite Hx, (IH Ha).
Qed.


(** The components of a string put together from components and
    separators. *)
Lemma re_split_join (rest : list (ascii * string)) :
  forall part,
    existsb is_sep (list_ascii_of_string part) = false ->
    Forall (fun p => is_sep (fst p) = true
                     /\ existsb is_sep (list_ascii_of_string (snd p)) = false) rest ->
    re_split (join_seps part rest) = part :: map snd rest.
Proof.
  induction rest as [|[sep part'] rest IH]; intros part Hpart Hrest; cbn [join_seps map].
  - now apply re_split_plain.
  - apply Forall_cons in Hrest as [[Hsep Hpart'] Hrest]. cbn [fst snd] in *.
    rewrite (re_split_sep part _ sep Hpart Hsep). now rewrite (IH part' Hpart' Hrest).
Qed.

(** Runs of digits within the limit of [int] are all converted. *)
Lemma int_each_runs (parts : list string) :
  Forall (fun part => digit_run part = true
                      /\ String.length part <= max_str_digits) parts ->
  int_each parts = Returns (map int_of_digits parts)
  /\ List.filter isdigit parts = parts.
Proof.
  induction 1 as [|part parts [Hrun Hlen] _ [IH1 IH2]]; [split; reflexivity|].
  cbn [int_each List.filter map]. unfold int. rewrite Hrun.
  apply Nat.leb_le in Hlen. rewrite Hlen. cbn [andb].
  rewrite IH1, (digit_run_isdigit part Hrun), IH2. auto.
Qed.

Lemma int_of_digits_snoc (s : string) (c : ascii) :
  int_of_digits (s +:+ String c "") = (10 * int_of_digits s + digit_value c)%N.
Proof.
  unfold int_of_digits. rewrite list_ascii_of_string_app, fold_left_app. reflexivity.
Qed.

End Parser.

(** C5. The comparison of the sync gate is the order of the specification on
    version tags: [compare_parts local remote] holds exactly when the tags
    agree up to a position where [remote] has the larger component, or
    [local] is a strict prefix of [remote]; the tag (1,2) is older than
    (1,2,0). On version strings whose parse returns the tags [a] and [b],
    [_compare_versions] returns [True] exactly when [b] is newer than [a]. A
    version string made of runs of digits and separators parses to the
    integers of its runs, in base ten. *)
Theorem C5_compare_versions_is_tag_order :
  (forall a b : list N,
      compare_parts a b = true <->
      (exists p x y a' b', a = p ++ x :: a' /\ b = p ++ y :: b' /\ (x < y)%N)
      \/ (exists y b', b = a ++ y :: b'))
  /\ compare_parts [1; 2]%N [1; 2; 0]%N = true
  /\ compare_parts [1; 2; 0]%N [1; 2]%N = false
  /\ (forall (lv rv : string) (a b : list N),
         lv <> "" -> rv <> "" ->
         parse_version lv = Returns a -> parse_version rv = Returns b ->
         (_compare_versions (Some lv) (Some rv) = true <-> tag_lt a b))
  /\ (forall (d : string) (rest : list (ascii * string)),
         Forall (fun part => digit_run part = true
                             /\ String.length part <= max_str_digits)
           (d :: map snd rest) ->
         Forall (fun sep => is_sep sep = true) (map fst rest) ->
         parse_version (join_seps d rest)
         = Returns (map int_of_digits (d :: map snd rest)))
  /\ (forall (s : string) (c : ascii),
         int_of_digits (s +:+ String c "")
         = (10 * int_of_digits s + digit_value c)%N)
  /\ parse_version "20.0.20-24" = Returns [20; 0; 20; 24]%N
  /\ parse_version "0123456789" = Returns [123456789]%N
  /\ _compare_versions (Some "1.2") (Some "1.2.0") = true
  /\ _compare_versions (Some "1.2.0") (Some "1.2") = false
  /\ _compare_versions (Some "20.0.20-24") (Some "20.0.20-25") = true
  /\ _compare_versions (Some "1.10") (Some "1.9") = false.
Proof.
  split; [|split; [reflexivity|split; [reflexivity|split; [|split; [|split]]]]].
  - intros a b. rewrite compare_parts_tag_lt. apply tag_lt_first_difference.
  - intros lv rv a b Hl Hr Ha Hb.
    rewrite (_compare_versions_parts lv rv a b Hl Hr Ha Hb).
    apply compare_parts_tag_lt.
  - intros d rest Hruns Hseps. unfold parse_version.
    assert (Hsplit : re_split (join_seps d rest) = d :: map snd rest).
    { apply Forall_cons in Hruns as [[Hd _] Hruns]. apply re_split_join.
      - now apply all_digits_no_sep, digit_run_all_digits.
      - clear Hd. induction rest as [|[sep part] rest IH]; [constructor|].
        cbn [map fst snd] in *.
        apply Forall_cons in Hruns as [[Hp _] Hruns].
        apply Forall_cons in Hseps as [Hsep Hseps].
        constructor; [|now apply IH]. cbn [fst snd]. split; [exact Hsep|].
        now apply all_digits_no_sep, digit_run_all_digits. }
    rewrite Hsplit. destruct (int_each_runs _ Hruns) as [E1 E2]. now rewrite E2.
  - exact int_of_digits_snoc.
  - vm_compute. repeat split; reflexivity.
Qed.

Lemma C5_witness :
  (_compare_versions (Some "1.2") (Some "1.2.0") = true
   <-> tag_lt [1; 2]%N [1; 2; 0]%N)
  /\ parse_version (join_seps "20" [("."%char, "0"); ("."%char, "20"); ("-"%char, "24")])
     = Returns [20; 0; 20; 24]%N.
Proof.
  destruct C5_compare_versions_is_tag_order as (_ & _ & _ & Hcmp & Hparse & _).
  split.
  - apply (Hcmp "1.2" "1.2.0"); (discriminate || reflexivity).
  - apply (Hparse "20" [("."%char, "0"); ("."%char, "20"); ("-"%char, "24")]).
    + repeat constructor; cbn; unfold max_str_digits; lia.
    + repeat constructor.
Defined.




(** ** The temporary path of a download *)

Section TempPath.

Lemma rfind_dot_none (x : string) : has_dot x = false -> rfind_dot x = None.
Proof.
  induction x as [|c x IH]; [reflexivity|]. unfold has_dot. cbn.
  intros [Hc Hx]%orb_false_elim. rewrite (IH Hx).
  destruct (Ascii.eqb_spec c "."); [subst; discriminate|reflexivity].
Qed.

Lemma rfind_dot_last (base x : string) :
  has_dot x = false ->
  rfind_dot (base +:+ String "." x) = Some (String.length base).
Proof.
  intros Hx. induction base as [|c base IH].
  - rewrite app_empty_l. cbn. now rewrite (rfind_dot_none x Hx).
  - rewrite app_String. cbn. now rewrite IH.
Qed.

Lemma substring_all (a : string) : substring 0 (String.length a) a = a.
Proof. induction a as [|c a IH]; [reflexivity|]. cbn. now rewrite IH. Qed.

Lemma substring_head (a b : string) : substring 0 (String.length a) (a +:+ b) = a.
Proof.
  induction a as [|c a IH].
  - now destruct b.
  - rewrite app_String. cbn. now rewrite IH.
Qed.

Lemma substring_skip (a b : string) (n : nat) :
  substring (String.length a) n (a +:+ b) = substring 0 n b.
Proof.
  induction a as [|c a IH]; [reflexivity|]. rewrite app_String. cbn. exact IH.
Qed.

(** The final extension of [base.ext] is [.ext] when [base] is not empty. *)
Lemma suffix_extension (base ext : string) :
  base <> "" -> ext <> "" -> has_dot ext = false ->
  suffix (base +:+ String "." ext) = String "." ext.
Proof.
  intros Hbase Hext Hdot. unfold suffix. rewrite (rfind_dot_last base ext Hdot).
  rewrite length_app_s. cbn [String.length].
  assert (Hb : 0 < String.length base) by (destruct base; [congruence|cbn; lia]).
  assert (He : 0 < String.length ext) by (destruct ext; [congruence|cbn; lia]).
  rewrite (proj2 (Nat.ltb_lt _ _) Hb).
  replace (Nat.ltb (String.length base)
             (String.length base + S (String.length ext) - 1)) with true
    by (symmetry; apply Nat.ltb_lt; lia).
  cbn [andb]. rewrite substring_skip.
  replace (String.length base + S (String.length ext) - String.length base)
    with (String.length (String "." ext)) by (cbn; lia).
  apply substring_all.
Qed.

(** [with_suffix] replaces the final extension. *)
Lemma with_suffix_extension (base ext sfx : string) :
  base <> "" -> ext <> "" -> has_dot ext = false ->
  with_suffix (base +:+ String "." ext) sfx = base +:+ sfx.
Proof.
  intros Hbase Hext Hdot. unfold with_suffix.
  rewrite (suffix_extension base ext Hbase Hext Hdot). rewrite eqb_empty_false.
  rewrite length_app_s.
  replace (String.length base + String.length (String "." ext)
           - String.length (String "." ext)) with (String.length base) by lia.
  now rewrite substring_head.
Qed.

Lemma rfind_dot_lt (name : string) :
  forall i, rfind_dot name = Some i -> i < String.length name.
Proof.
  induction name as [|c name IH]; intros i H; [discriminate|]. cbn in H.
  destruct (rfind_dot name) as [j|].
  - inversion H; subst. specialize (IH j eq_refl). cbn. lia.
  - destruct (Ascii.eqb c "."); inversion H; subst. cbn. lia.
Qed.

Lemma substring_split (s : string) :
  forall i, i <= String.length s ->
    substring 0 i s +:+ substring i (String.length s - i) s = s.
Proof.
  induction s as [|c s IH]; intros [|i] Hi; cbn in Hi; try lia.
  - reflexivity.
  - cbn. now rewrite substring_all.
  - cbn. rewrite app_String. now rewrite (IH i) by lia.
Qed.

Lemma substring_tail_length (s : string) :
  forall i, i <= String.length s ->
    String.length (substring i (String.length s - i) s) = String.length s - i.
Proof.
  induction s as [|c s IH]; intros [|i] Hi; cbn in Hi; try lia.
  - reflexivity.
  - cbn. now rewrite substring_all.
  - cbn. apply IH. lia.
Qed.

Lemma suffix_shape (name : string) :
  suffix name = ""
  \/ exists i, i < String.length name
               /\ suffix name = substring i (String.length name - i) name.
Proof.
  unfold suffix. destruct (rfind_dot name) as [i|] eqn:E; [|auto].
  destruct (_ && _); [|auto]. right. exists i. split; [|reflexivity].
  now apply rfind_dot_lt.
Qed.

(** A name is its stem followed by its final extension. *)
Lemma stem_suffix (name : string) : stem name +:+ suffix name = name.
Proof.
  unfold stem. destruct (suffix_shape name) as [->|(i & Hi & ->)].
  - cbn [String.length]. rewrite Nat.sub_0_r, substring_all. apply app_empty_r.
  - rewrite substring_tail_length by lia.
    replace (String.length name - (String.length name - i)) with i by lia.
    apply substring_split. lia.
Qed.

Lemma with_suffix_stem (name sfx : string) : with_suffix name sfx = stem name +:+ sfx.
Proof.
  unfold with_suffix, stem. destruct (String.eqb_spec (suffix name) "") as [->|_].
  - cbn [String.length]. now rewrite Nat.sub_0_r, substring_all.
  - reflexivity.
Qed.

Lemma with_suffix_not_appended (name sfx : string) :
  suffix name <> "" -> with_suffix name sfx <> name +:+ sfx.
Proof.
  intros Hsuffix H. rewrite with_suffix_stem in H.
  apply (f_equal String.length) in H. rewrite !length_app_s in H.
  pose proof (f_equal String.length (stem_suffix name)) as L.
  rewrite length_app_s in L.
  destruct (suffix name); [congruence|cbn in L; lia].
Qed.

Lemma with_suffix_same (name : string) :
  suffix name = ".tmp" -> with_suffix name ".tmp" = name.
Proof.
  intros H. rewrite with_suffix_stem. rewrite <- H. apply stem_suffix.
Qed.

End TempPath.

(** ** The transfer of one file *)

Section Transfer.

Lemma connect_fs (e : env) (s : state) : fs (fst (connect e s)) = fs s.
Proof.
  unfold connect. destruct (load_credentials e) as [username password].
  destruct (falsy username || falsy password); [reflexivity|].
  destruct (smb_connect e); reflexivity.
Qed.

Lemma ensure_connected_fs (e : env) (s : state) :
  fs (fst (ensure_connected e s)) = fs s.
Proof.
  unfold ensure_connected.
  destruct (negb (connected s) || negb (connection s)); [apply connect_fs|reflexivity].
Qed.

Lemma _verify_file_written (e : env) (filename path bytes : string) (s : state) :
  _verify_file e filename path (write_file e path bytes s)
  = size_verified e filename bytes.
Proof.
  unfold _verify_file, size_verified, write_file. cbn.
  rewrite lookup_insert_eq. cbn.
  destruct (smb_getAttributes e (remote_path_of e filename)); [|reflexivity].
  now destruct (Nat.eqb (String.length bytes) a).
Qed.

(** A download whose temporary path is the destination itself writes the
    stream into the destination and never creates another file. *)
Lemma download_file_in_place (e : env) (s : state) (filename : string) :
  with_suffix filename ".tmp" = filename ->
  snd (ensure_connected e s) = true ->
  open_raises e filename = false ->
  let '(bytes, raised) := smb_retrieveFile e (remote_path_of e filename) in
  fs (fst (download_file e filename s))
  = if raised || size_verified e filename bytes
    then <[filename := File bytes (now e)]> (fs s)
    else delete filename (fs s).
Proof.
  intros Htmp Hconn Hopen. unfold download_file.
  pose proof (ensure_connected_fs e s) as Hfs.
  destruct (ensure_connected e s) as [s1 ok]. cbn in Hconn, Hfs. subst ok.
  cbn [negb]. rewrite Htmp, Hopen.
  destruct (smb_retrieveFile e (remote_path_of e filename)) as [bytes raised].
  destruct raised; cbn [orb].
  { cbn. now rewrite Hfs. }
  rewrite _verify_file_written.
  destruct (size_verified e filename bytes).
  - unfold move. rewrite String.eqb_refl.
    destruct (move_raises e filename filename); cbn; now rewrite Hfs.
  - unfold write_file at 1. cbn [fs set_fs]. rewrite lookup_insert_eq.
    cbn. now rewrite delete_insert_eq, Hfs.
Qed.

(** A download that fails leaves the destination as it was, provided that
    the temporary path is another path. *)
Lemma download_file_failure_other_temp (e : env) (s : state) (filename : string) :
  with_suffix filename ".tmp" <> filename ->
  snd (download_file e filename s) = false ->
  fs (fst (download_file e filename s)) !! filename = fs s !! filename.
Proof.
  intros Htmp. unfold download_file.
  pose proof (ensure_connected_fs e s) as Hfs.
  destruct (ensure_connected e s) as [s1 ok]. cbn in Hfs.
  destruct ok; cbn [negb]; [|intros _; cbn; now rewrite Hfs].
  destruct (open_raises e (with_suffix filename ".tmp"));
    [intros _; cbn; now rewrite Hfs|].
  destruct (smb_retrieveFile e (remote_path_of e filename)) as [bytes raised].
  destruct raised.
  { intros _. cbn. now rewrite lookup_insert_ne, Hfs. }
  rewrite _verify_file_written.
  destruct (size_verified e filename bytes).
  - destruct (move_raises e (with_suffix filename ".tmp") filename); [|discriminate].
    intros _. cbn. now rewrite lookup_insert_ne, Hfs.
  - intros _. unfold write_file at 1. cbn [fs set_fs]. rewrite lookup_insert_eq.
    cbn. rewrite lookup_delete_ne, lookup_insert_ne, Hfs by assumption. reflexivity.
Qed.

(** A download whose read raises leaves what was delivered in the file of
    the temporary path, which is the stem of the name followed by [.tmp]. *)
Lemma download_file_dropped (e : env) (s : state) (filename : string) :
  snd (ensure_connected e s) = true ->
  open_raises e (stem filename +:+ ".tmp") = false ->
  snd (smb_retrieveFile e (remote_path_of e filename)) = true ->
  fs (fst (download_file e filename s))
  = <[stem filename +:+ ".tmp"
      := File (fst (smb_retrieveFile e (remote_path_of e filename))) (now e)]> (fs s).
Proof.
  intros Hconn Hopen Hraise. unfold download_file.
  pose proof (ensure_connected_fs e s) as Hfs.
  destruct (ensure_connected e s) as [s1 ok]. cbn in Hconn, Hfs. subst ok.
  cbn [negb]. rewrite with_suffix_stem, Hopen.
  destruct (smb_retrieveFile e (remote_path_of e filename)) as [bytes raised].
  cbn in Hraise. subst raised. cbn. now rewrite Hfs.
Qed.

End Transfer.

(** C9 (amended). [download_file] streams into the file whose name is the
    stem of the destination followed by [.tmp]: the final extension of the
    destination is replaced, and [.tmp] is not appended to a name that has
    an extension. Two candidates with the same stem, as are two names that
    differ in their final extension only, are streamed into the same
    temporary file. For a candidate whose final extension is [.tmp], as it
    is for every name [base.tmp] with a base that is not empty, the
    temporary path is the destination: the stream is written into the
    destination, which then holds what was delivered, or is removed when the
    verification fails, and no other file is created. *)
Theorem C9_temp_path_replaces_extension :
  (forall (e : env) (s : state) (filename : string),
      snd (ensure_connected e s) = true ->
      open_raises e (stem filename +:+ ".tmp") = false ->
      snd (smb_retrieveFile e (remote_path_of e filename)) = true ->
      fs (fst (download_file e filename s))
      = <[stem filename +:+ ".tmp"
          := File (fst (smb_retrieveFile e (remote_path_of e filename))) (now e)]>
          (fs s))
  /\ (forall name : string,
         stem name +:+ suffix name = name
         /\ (suffix name <> "" -> stem name +:+ ".tmp" <> name +:+ ".tmp"))
  /\ (forall base ext : string,
         base <> "" -> ext <> "" -> has_dot ext = false ->
         suffix (base +:+ String "." ext) = String "." ext
         /\ stem (base +:+ String "." ext) = base)
  /\ (forall (e : env) (s1 s2 : state) (name1 name2 : string),
         stem name1 = stem name2 ->
         snd (ensure_connected e s1) = true -> snd (ensure_connected e s2) = true ->
         open_raises e (stem name1 +:+ ".tmp") = false ->
         snd (smb_retrieveFile e (remote_path_of e name1)) = true ->
         snd (smb_retrieveFile e (remote_path_of e name2)) = true ->
         exists temp_path file1 file2,
           fs (fst (download_file e name1 s1)) = <[temp_path := file1]> (fs s1)
           /\ fs (fst (download_file e name2 s2)) = <[temp_path := file2]> (fs s2))
  /\ (forall (e : env) (s : state) (filename : string),
         suffix filename = ".tmp" ->
         snd (ensure_connected e s) = true ->
         open_raises e filename = false ->
         let delivered := smb_retrieveFile e (remote_path_of e filename) in
         fs (fst (download_file e filename s))
         = if snd delivered || size_verified e filename (fst delivered)
           then <[filename := File (fst delivered) (now e)]> (fs s)
           else delete filename (fs s))
  /\ (forall base : string, base <> "" -> suffix (base +:+ ".tmp") = ".tmp").
Proof.
  split; [exact download_file_dropped|split; [|split; [|split; [|split]]]].
  - intros name. split; [apply stem_suffix|].
    intros Hsuffix. rewrite <- with_suffix_stem. now apply with_suffix_not_appended.
  - intros base ext Hb He Hd. split; [now apply suffix_extension|].
    pose proof (with_suffix_extension base ext "" Hb He Hd) as H.
    rewrite with_suffix_stem, !app_empty_r in H. exact H.
  - intros e s1 s2 name1 name2 Hstem C1 C2 Hopen R1 R2.
    eexists _, _, _. split.
    + now apply download_file_dropped.
    + rewrite Hstem in *. now apply download_file_dropped.
  - intros e s filename Hsuffix Hconn Hopen delivered.
    pose proof (download_file_in_place e s filename
                  (with_suffix_same filename Hsuffix) Hconn Hopen) as H.
    subst delivered. now destruct (smb_retrieveFile e (remote_path_of e filename)).
  - intros base Hbase. now apply (suffix_extension base "tmp").
Qed.

Lemma C9_witness :
  let e := world stored share_listing dropped 200 in
  fs (fst (download_file e "data.bin" (online local_dir)))
  = <["data.tmp" := File "ne" 200]> local_dir
  /\ fs (fst (download_file e "data.txt" (online local_dir)))
     = <["data.tmp" := File "ne" 200]> local_dir
  /\ fs (fst (download_file e "patch.tmp" (online local_dir)))
     = <["patch.tmp" := File "ne" 200]> local_dir.
Proof.
  intros e.
  destruct C9_temp_path_replaces_extension as (H1 & _ & _ & _ & H5 & _).
  split; [|split].
  - apply (H1 e (online local_dir) "data.bin"); reflexivity.
  - apply (H1 e (online local_dir) "data.txt"); reflexivity.
  - apply (H5 e (online local_dir) "patch.tmp"); reflexivity.
Defined.

(** C9, as stated, fails at the name [.tmp]: it ends in [.tmp], but has no
    extension, so that its temporary path is [.tmp.tmp]. The stream goes
    into that file and the destination is not written. *)
Lemma C9_counterexample :
  ~ (forall (e : env) (s : state) (base : string),
        snd (ensure_connected e s) = true ->
        open_raises e (base +:+ ".tmp") = false ->
        with_suffix (base +:+ ".tmp") ".tmp" = base +:+ ".tmp"
        /\ fs (fst (download_file e (base +:+ ".tmp") s)) !! (base +:+ ".tmp")
           = if snd (smb_retrieveFile e (remote_path_of e (base +:+ ".tmp")))
                || size_verified e (base +:+ ".tmp")
                     (fst (smb_retrieveFile e (remote_path_of e (base +:+ ".tmp"))))
             then Some (File (fst (smb_retrieveFile e (remote_path_of e (base +:+ ".tmp"))))
                          (now e))
             else None).
Proof.
  intros H.
  destruct (H (world stored share_listing dropped 200) (online local_dir) ""
              eq_refl eq_refl) as [Hpath Hfile].
  vm_compute in Hpath. discriminate.
Qed.

(** C2, at a destination named [patch.tmp]. The temporary path is the
    destination, so a transfer that fails before the verification has
    already replaced the bytes of the destination: after a connection drop
    the destination holds the two bytes delivered, and after a size mismatch
    it is gone. *)
Theorem C2_failed_transfer_overwrites_tmp_destination :
  let before := online local_dir in
  let after_drop :=
    download_file (world stored share_listing dropped 200) "patch.tmp" before in
  let after_mismatch :=
    download_file (world stored short_listing complete 200) "patch.tmp" before in
  fs before !! "patch.tmp" = Some (File "older" 5)
  /\ snd after_drop = false
  /\ fs (fst after_drop) !! "patch.tmp" = Some (File "ne" 200)
  /\ snd after_mismatch = false
  /\ fs (fst after_mismatch) !! "patch.tmp" = None.
Proof. vm_compute. repeat split; reflexivity. Qed.

(** C4, at a destination named [data.bin]. When the connection drops during
    the stream, or when the move is refused after a successful verification,
    [download_file] returns [False] and the temporary file [data.tmp], which
    did not exist before, is left in the directory. *)
Theorem C4_failed_transfer_leaves_temp_file :
  let before := online local_dir in
  let after_drop :=
    download_file (world stored share_listing dropped 200) "data.bin" before in
  let after_move_fault :=
    download_file (with_move_fault (world stored share_listing complete 200))
      "data.bin" before in
  fs before !! "data.tmp" = None
  /\ snd after_drop = false
  /\ fs (fst after_drop) !! "data.tmp" = Some (File "ne" 200)
  /\ snd after_move_fault = false
  /\ fs (fst after_move_fault) !! "data.tmp" = Some (File "newer" 200).
Proof. vm_compute. repeat split; reflexivity. Qed.

(** ** The session *)

Section Session.

Lemma connect_true (e : env) (s : state) :
  snd (connect e s) = true ->
  connected (fst (connect e s)) = true /\ connection (fst (connect e s)) = true.
Proof.
  unfold connect. destruct (load_credentials e) as [username password].
  destruct (falsy username || falsy password); [discriminate|].
  destruct (smb_connect e) as [[|]|]; cbn; try discriminate. auto.
Qed.

Lemma ensure_connected_true (e : env) (s : state) :
  snd (ensure_connected e s) = true ->
  connected (fst (ensure_connected e s)) = true
  /\ connection (fst (ensure_connected e s)) = true.
Proof.
  unfold ensure_connected.
  destruct (connected s) eqn:C, (connection s) eqn:N; cbn [negb orb];
    try apply connect_true.
  cbn. auto.
Qed.

Lemma ensure_connected_open (e : env) (s : state) :
  connected s = true -> connection s = true -> ensure_connected e s = (s, true).
Proof. intros C N. unfold ensure_connected. now rewrite C, N. Qed.

Lemma list_updates_open (e : env) (s : state) :
  connected s = true -> connection s = true ->
  list_updates e s = (s, listed_updates e).
Proof.
  intros C N. unfold list_updates, listed_updates.
  rewrite (ensure_connected_open e s C N). cbn [negb].
  destruct (smb_listPath e) as [files|]; [|reflexivity].
  now destruct (to_updates e files).
Qed.

(** A session that is closed and cannot be opened stays closed. *)
Lemma connect_false (e : env) (s : state) :
  connected s = false -> snd (connect e s) = false ->
  connected (fst (connect e s)) = false.
Proof.
  unfold connect. destruct (load_credentials e) as [username password].
  destruct (falsy username || falsy password); [auto|].
  destruct (smb_connect e) as [[|]|]; cbn; auto; discriminate.
Qed.

Lemma connect_false_again (e : env) (s s' : state) :
  snd (connect e s) = false -> snd (connect e s') = false.
Proof.
  unfold connect. destruct (load_credentials e) as [username password].
  destruct (falsy username || falsy password); [auto|].
  destruct (smb_connect e) as [[|]|]; cbn; auto.
Qed.

Lemma ensure_connected_closed (e : env) (s : state) :
  connected s = false -> ensure_connected e s = connect e s.
Proof. intros C. unfold ensure_connected. now rewrite C. Qed.

End Session.

(** ** The version gate and the decision *)

Section Decision.

Lemma filter_none {A : Type} (p : A -> bool) (l : list A) :
  (forall x, In x l -> p x = false) -> List.filter p l = [].
Proof.
  induction l as [|x l IH]; intros H; [reflexivity|]. cbn.
  rewrite (H x (or_introl eq_refl)). apply IH. intros y Hy. apply H. now right.
Qed.



Lemma _needs_update_fs (e : env) (s s' : state) (u : update) (path : string) :
  fs s' = fs s -> _needs_update e s' u path = _needs_update e s u path.
Proof. intros H. unfold _needs_update. now rewrite H. Qed.

(** A directory without a file that the pattern selects has no marker. *)
Lemma _get_local_version_unmarked (e : env) (s : state) (selects : string -> bool) :
  path_glob e (version_file_pattern e) = Returns selects ->
  (forall name f, fs s !! name = Some f -> selects name = false) ->
  _get_local_version e s = (None, None).
Proof.
  intros Hglob Hnone. unfold _get_local_version. rewrite Hglob.
  rewrite filter_none; [reflexivity|].
  intros [name f] Hin. cbn. apply (Hnone name f).
  apply elem_of_map_to_list. now apply list_elem_of_In.
Qed.

(** The two getters return a marker with its version text, or nothing. *)
Lemma _get_local_version_shape (e : env) (s : state) :
  _get_local_version e s = (None, None)
  \/ exists f, _get_local_version e s = (Some f, Some (_extract_version_from_filename f)).
Proof.
  unfold _get_local_version. destruct (path_glob e (version_file_pattern e)); [|auto].
  destruct (List.filter _ _); [auto|right; eauto].
Qed.

Lemma _get_remote_version_shape (e : env) (s : state) :
  snd (_get_remote_version e s) = (None, None)
  \/ exists f, snd (_get_remote_version e s)
               = (Some f, Some (_extract_version_from_filename f)).
Proof.
  unfold _get_remote_version. destruct (ensure_connected e s) as [s1 ok].
  destruct ok; cbn [negb]; [|auto].
  destruct (list_updates e s1) as [s2 remote_files].
  destruct remote_files; [auto|].
  destruct (re_compile e (replace_star (version_file_pattern e))); [|auto].
  destruct (List.filter _ _); [auto|right; eauto].
Qed.

Lemma version_text_nonempty (v : string) : version_text v -> v <> "".
Proof.
  intros (d & dots & hyphens & -> & Hd & _).
  destruct (digit_run_inv _ Hd) as (c & d' & -> & _). now rewrite app_String.
Qed.

Lemma _extract_version_nonempty (f : string) :
  f <> "" -> _extract_version_from_filename f <> "".
Proof.
  intros Hf. unfold _extract_version_from_filename.
  destruct (re_search f) as [m|] eqn:E; [|assumption].
  assert (H : exists t, match_here t = Some m).
  { clear Hf. induction f as [|c f IH]; rewrite re_search_unfold in E.
    - destruct (match_here "") eqn:M; [inversion E; subst; eauto|discriminate].
    - destruct (match_here (String c f)) eqn:M; [inversion E; subst; eauto|auto]. }
  destruct H as [t Ht]. apply version_text_nonempty. now apply (match_here_spec t).
Qed.

End Decision.

(** C6 (amended). Without a local marker the gate reports a newer version
    (the bootstrap case). With a local marker, the gate reports no newer
    version when the share has no marker. With both markers, when their
    versions parse to tags, the gate reports a newer version exactly when the
    tag of the remote marker is strictly newer than the tag of the local
    marker in the order on version tags: equal tags, and a remote marker
    without a number (the empty tag), never trigger a sync, and a local
    marker without a number has the empty tag, which every non-empty remote
    tag is newer than. When the version of a marker cannot be parsed, the
    comparison cannot be carried out and the gate reports a newer
    version. *)
Theorem C6_version_gate (e : env) (s : state) :
  (local_marker e s = None -> has_newer_version e s = true)
  /\ (forall lf : string,
         local_marker e s = Some lf -> lf <> "" ->
         (remote_marker e s = None -> has_newer_version e s = false)
         /\ (forall rf : string,
                remote_marker e s = Some rf -> rf <> "" ->
                (forall a b : list N,
                    version_tag lf = Returns a -> version_tag rf = Returns b ->
                    (has_newer_version e s = true <-> tag_lt a b)
                    /\ (a = b -> has_newer_version e s = false)
                    /\ (b = [] -> has_newer_version e s = false)
                    /\ (a = [] -> b <> [] -> has_newer_version e s = true))
                /\ (version_tag lf = Raises \/ version_tag rf = Raises ->
                    has_newer_version e s = true))).
Proof.
  unfold local_marker, remote_marker, has_newer_version, _check_version_files.
  destruct (_get_local_version_shape e s) as [->|[f ->]]; cbn [fst].
  { split; [reflexivity|discriminate]. }
  split; [discriminate|]. intros lf [= <-] Hlf.
  rewrite (falsy_Some f Hlf), (falsy_Some _ (_extract_version_nonempty f Hlf)).
  cbn [orb].
  pose proof (_get_remote_version_shape e s) as Hshape.
  destruct (_get_remote_version e s) as [s' [rf' rv]]. cbn [snd fst] in *.
  destruct Hshape as [[= -> ->]|[g [= -> ->]]].
  { split; [reflexivity|discriminate]. }
  split; [discriminate|]. intros rf [= <-] Hrf.
  rewrite (falsy_Some g Hrf), (falsy_Some _ (_extract_version_nonempty g Hrf)).
  cbn [orb fst snd]. unfold version_tag.
  pose proof (_extract_version_nonempty f Hlf) as Hf.
  pose proof (_extract_version_nonempty g Hrf) as Hg.
  split.
  - intros a b Ha Hb. rewrite (_compare_versions_parts _ _ a b Hf Hg Ha Hb).
    split; [apply compare_parts_tag_lt|split; [|split]].
    + intros ->. apply compare_parts_refl.
    + intros ->. destruct (compare_parts a []) eqn:E; [|reflexivity].
      apply compare_parts_tag_lt in E. inversion E.
    + intros -> Hne. apply compare_parts_tag_lt.
      destruct b; [congruence|constructor].
  - intros H. now apply _compare_versions_raises.
Qed.

Lemma C6_witness :
  let e := world stored newer_listing complete 200 in
  let e' := world stored squared_listing complete 200 in
  let s := online marked_dir in
  (has_newer_version e s = true <-> tag_lt [1; 0]%N [1; 1]%N)
  /\ has_newer_version e' s = true.
Proof.
  intros e e' s. split.
  - refine (proj1 (proj1 (proj2 (proj2 (C6_version_gate e s) "SIGES 1.0.txt" eq_refl _)
                            "SIGES 1.1.txt" eq_refl _) [1; 0]%N [1; 1]%N eq_refl eq_refl));
      discriminate.
  - refine (proj2 (proj2 (proj2 (C6_version_gate e' s) "SIGES 1.0.txt" eq_refl _)
                     squared_marker eq_refl _) (or_intror eq_refl)); discriminate.
Defined.

(** C6, as stated, fails: the local marker below has no number, so its
    version is unknown, and the gate reports a newer version. *)
Lemma C6_counterexample :
  ~ (forall (e : env) (s : state) (lf rf : string),
        local_marker e s = Some lf -> remote_marker e s = Some rf ->
        version_tag lf = version_tag rf
        \/ version_tag lf = Returns [] \/ version_tag rf = Returns []
        \/ version_tag lf = Raises \/ version_tag rf = Raises ->
        has_newer_version e s = false).
Proof.
  intros H.
  specialize (H (world stored numbered_listing complete 200) (online unnumbered_dir)
                "SIGES abc.txt" "SIGES 1.0.txt" eq_refl eq_refl
                (or_intror (or_introl eq_refl))).
  vm_compute in H. discriminate.
Qed.




(** ** The cycle *)

Section Cycle.

Lemma _update_version_info_status (e : env) (um : manager) :
  update_status (_update_version_info e um) = update_status um
  /\ last_check_time (_update_version_info e um) = last_check_time um.
Proof.
  unfold _update_version_info.
  destruct (_get_local_version e (share_manager um)) as [lf lv].
  destruct (_get_remote_version e (share_manager um)) as [s [rf rv]].
  split; reflexivity.
Qed.

Lemma _notify_status (e : env) (um : manager) :
  update_status (_notify_app_about_update e um) = update_status um
  /\ last_check_time (_notify_app_about_update e um) = last_check_time um.
Proof.
  unfold _notify_app_about_update. destruct (open_raises e flag_file); split; reflexivity.
Qed.

(** Whatever the status at the call, [check_and_download_updates] records the
    time of the call and runs a cycle to its end. *)
Lemma check_and_download_updates_runs (e : env) (um : manager) :
  last_check_time (fst (check_and_download_updates e um)) = Some (now e)
  /\ in_progress (update_status (fst (check_and_download_updates e um))) = false.
Proof.
  unfold check_and_download_updates.
  destruct (_is_app_running e) as [app_running|]; [|split; reflexivity].
  destruct (check_for_updates e _) as [s [has_updates updates_list]].
  destruct has_updates; cbn [negb].
  - destruct (download_updates e updates_list _) as [s' success].
    destruct success; [|cbn [fst];
      split; [apply _update_version_info_status|reflexivity]].
    cbn [fst]. destruct app_running.
    + destruct (_notify_status e (_update_version_info e
        (set_status (set_share_manager (set_status (_update_version_info e
          (set_share_manager (set_last_check_time (set_status um checking)
            (Some (now e))) s)) downloading) s') downloaded))) as [-> ->].
      destruct (_update_version_info_status e
        (set_status (set_share_manager (set_status (_update_version_info e
          (set_share_manager (set_last_check_time (set_status um checking)
            (Some (now e))) s)) downloading) s') downloaded)) as [-> ->].
      cbn. split; [apply _update_version_info_status|reflexivity].
    + destruct (_update_version_info_status e
        (set_status (set_share_manager (set_status (_update_version_info e
          (set_share_manager (set_last_check_time (set_status um checking)
            (Some (now e))) s)) downloading) s') downloaded)) as [-> ->].
      cbn. split; [apply _update_version_info_status|reflexivity].
  - cbn [fst]. split; [apply _update_version_info_status|reflexivity].
Qed.

Lemma check_for_updates_closed (e : env) (s : state) :
  connected s = false -> snd (connect e s) = false ->
  check_for_updates e s = (fst (connect e s), (false, [])).
Proof.
  intros C H. unfold check_for_updates. rewrite (ensure_connected_closed e s C).
  destruct (connect e s) as [s1 ok]. cbn in H. now subst ok.
Qed.

Lemma _get_remote_version_closed (e : env) (s : state) :
  connected s = false -> snd (connect e s) = false ->
  _get_remote_version e s = (fst (connect e s), (None, None)).
Proof.
  intros C H. unfold _get_remote_version. rewrite (ensure_connected_closed e s C).
  destruct (connect e s) as [s1 ok]. cbn in H. now subst ok.
Qed.

End Cycle.

(** The first cycle over an empty directory fetches the marker and the data
    file, and ends [downloaded] with the local version 1.0.0. *)
Example first_cycle :
  let e := world stored first_listing (served first_listing) 200 in
  let r := check_and_download_updates e (init (offline ∅)) in
  snd (check_for_updates e (offline ∅))
  = (true, [Update "SIGES 1.0.0.txt" 10 10 10; Update "data.bin" 100 10 10])
  /\ snd r = true
  /\ update_status (fst r) = downloaded
  /\ vi_local (version_snapshot (fst r)) = Some "1.0.0"
  /\ dom (fs (share_manager (fst r))) = {[ "SIGES 1.0.0.txt"; "data.bin" ]}.
Proof. vm_compute. repeat split; reflexivity. Qed.

(** A second cycle finds nothing to do. *)
Example second_cycle :
  let e := world stored first_listing (served first_listing) 200 in
  let r := check_and_download_updates e (init (offline ∅)) in
  let r' := check_and_download_updates e (fst r) in
  snd r' = false
  /\ update_status (fst r') = up_to_date
  /\ version_snapshot (fst r') = version_snapshot (fst r).
Proof. vm_compute. repeat split; reflexivity. Qed.

(** C3 (amended). When the session is closed and cannot be opened with the
    stored credentials, and the lookup of the processes does not raise,
    [check_and_download_updates] ends the cycle without a download: it
    returns [False], the status is [up_to_date] and not [error], the time of
    the check is recorded, no remote version is known, and the local files
    are as before. *)
Theorem C3_closed_session_ends_up_to_date (e : env) (um : manager) :
  connected (share_manager um) = false ->
  snd (connect e (share_manager um)) = false ->
  _is_app_running e <> Raises ->
  snd (check_and_download_updates e um) = false
  /\ update_status (fst (check_and_download_updates e um)) = up_to_date
  /\ last_check_time (fst (check_and_download_updates e um)) = Some (now e)
  /\ vi_remote (version_snapshot (fst (check_and_download_updates e um))) = None
  /\ fs (share_manager (fst (check_and_download_updates e um)))
     = fs (share_manager um).
Proof.
  intros C H Happ. unfold check_and_download_updates.
  destruct (_is_app_running e) as [app_running|]; [|congruence].
  cbn [share_manager set_status set_last_check_time].
  rewrite (check_for_updates_closed e _ C H). cbn [negb].
  unfold _update_version_info. cbn [share_manager set_share_manager].
  destruct (_get_local_version e (fst (connect e (share_manager um)))) as [lf lv].
  rewrite (_get_remote_version_closed e _ (connect_false e _ C H)
             (connect_false_again e _ _ H)).
  cbn. rewrite !connect_fs. auto.
Qed.

Lemma C3_witness :
  let e := world no_credentials data_listing complete 200 in
  let um := init (offline unmarked_dir) in
  snd (check_and_download_updates e um) = false
  /\ update_status (fst (check_and_download_updates e um)) = up_to_date.
Proof.
  intros e um.
  destruct (C3_closed_session_ends_up_to_date e um eq_refl eq_refl) as (R & S & _).
  - discriminate.
  - split; [exact R|exact S].
Defined.

(** C3, as stated, fails: without stored credentials the session cannot be
    opened, and the status at the end of the cycle is [up_to_date]. *)
Lemma C3_counterexample :
  ~ (forall (e : env) (um : manager),
        connected (share_manager um) = false ->
        snd (connect e (share_manager um)) = false ->
        update_status (fst (check_and_download_updates e um)) = error).
Proof.
  intros H.
  specialize (H (world no_credentials data_listing complete 200)
                (init (offline unmarked_dir)) eq_refl eq_refl).
  vm_compute in H. discriminate.
Qed.

(** C1, at a manager whose cycle is downloading since time 100, called at
    time 200 while the share holds a newer marker. [force_update_check]
    refuses to start a cycle, but [check_and_download_updates] itself runs a
    whole new cycle: it returns [True], the time of the check is 200, the
    status is [downloaded], the version snapshot is new and the files of the
    share have been fetched again. *)
Theorem C1_busy_manager_runs_another_cycle :
  let e := world stored newer_listing (served newer_listing) 200 in
  let um := busy (online marked_dir) in
  let r := check_and_download_updates e um in
  force_update_check um = false
  /\ snd r = true
  /\ update_status um = downloading /\ update_status (fst r) = downloaded
  /\ last_check_time um = Some 100%Z /\ last_check_time (fst r) = Some 200%Z
  /\ vi_remote (version_snapshot um) = None
  /\ vi_remote (version_snapshot (fst r)) = Some "1.1"
  /\ fs (share_manager um) !! "data.bin" = None
  /\ fs (share_manager (fst r)) !! "data.bin" = Some (File "xxxxx" 200).
Proof. vm_compute. repeat split; reflexivity. Qed.

(** * Further properties of the code *)

(** ** Version texts and tags *)

Section VersionFacts.

Lemma re_search_match (f m : string) :
  re_search f = Some m -> exists t, match_here t = Some m.
Proof.
  induction f as [|c f IH]; rewrite re_search_unfold.
  - destruct (match_here "") eqn:M; [intros [= <-]; eauto|discriminate].
  - destruct (match_here (String c f)) eqn:M; [intros [= <-]; eauto|auto].
Qed.

Lemma version_text_head (v : string) : version_text v -> head_is is_digit v = true.
Proof.
  intros (d & dots & hyphens & -> & Hd & _).
  destruct (digit_run_inv _ Hd) as (c & d' & -> & Hc & _). now rewrite app_String.
Qed.

Lemma length_zero_empty (s : string) : String.length s = 0 -> s = "".
Proof. destruct s; [reflexivity|discriminate]. Qed.

(** The pattern matches a text of the pattern whole. *)
Lemma match_here_version_text (v : string) : version_text v -> match_here v = Some v.
Proof.
  intros Hv. destruct (match_here_digit v (version_text_head v Hv)) as [m Hm].
  destruct (match_here_spec v m Hm) as [_ [post Hpost]].
  pose proof (match_here_longest v m Hm v "" Hv (eq_sym (app_empty_r v))) as Hlen.
  pose proof (f_equal String.length Hpost) as L. rewrite length_app_s in L.
  assert (post = "") as -> by (apply length_zero_empty; lia).
  rewrite app_empty_r in Hpost. now subst m.
Qed.









End VersionFacts.

(** X1. Extracting the version text again changes nothing: the version text
    of a file name is its own version text. *)
Theorem X1_extract_version_idempotent (filename : string) :
  _extract_version_from_filename (_extract_version_from_filename filename)
  = _extract_version_from_filename filename.
Proof.
  unfold _extract_version_from_filename at 2 3.
  destruct (re_search filename) as [m|] eqn:E.
  - destruct (re_search_match _ _ E) as [t Ht].
    destruct (match_here_spec _ _ Ht) as [Hv _].
    unfold _extract_version_from_filename.
    now rewrite (re_search_here m (version_text_head m Hv)),
      (match_here_version_text m Hv).
  - unfold _extract_version_from_filename. now rewrite E.
Qed.



(** X3. On version strings that are not empty and whose parse returns a tag,
    [_compare_versions] is a strict order on the tags that compares every
    pair: no string is newer than itself, two strings are not each newer
    than the other, newer than is transitive, and two strings of which none
    is newer have the same tag. A string whose parse raises is reported
    newer than every string, and every string newer than it. *)
Theorem X3_compare_versions_strict_total (a b c : string) (ta tb tc : list N) :
  a <> "" -> b <> "" -> c <> "" ->
  parse_version a = Returns ta -> parse_version b = Returns tb ->
  parse_version c = Returns tc ->
  _compare_versions (Some a) (Some a) = false
  /\ (_compare_versions (Some a) (Some b) = true ->
      _compare_versions (Some b) (Some a) = false)
  /\ (_compare_versions (Some a) (Some b) = true ->
      _compare_versions (Some b) (Some c) = true ->
      _compare_versions (Some a) (Some c) = true)
  /\ (_compare_versions (Some a) (Some b) = false ->
      _compare_versions (Some b) (Some a) = false ->
      ta = tb)
  /\ (forall x : string,
         x <> "" -> parse_version x = Raises ->
         _compare_versions (Some a) (Some x) = true
         /\ _compare_versions (Some x) (Some a) = true
         /\ _compare_versions (Some x) (Some x) = true).
Proof.
  intros Ha Hb Hc Pa Pb Pc.
  rewrite (_compare_versions_parts a a ta ta), (_compare_versions_parts a b ta tb),
    (_compare_versions_parts b a tb ta), (_compare_versions_parts b c tb tc),
    (_compare_versions_parts a c ta tc) by assumption.
  split; [apply compare_parts_refl|split; [|split; [|split]]].
  - intros Hab. destruct (compare_parts tb ta) eqn:Hba; [|reflexivity].
    apply compare_parts_tag_lt in Hab, Hba.
    now destruct (tag_lt_irrefl _ (tag_lt_trans _ _ _ Hab Hba)).
  - intros Hab Hbc. apply compare_parts_tag_lt in Hab, Hbc.
    apply compare_parts_tag_lt. now apply (tag_lt_trans _ _ _ Hab Hbc).
  - intros Hab Hba.
    destruct (tag_lt_total ta tb) as [H|[H|H]];
      [|assumption|]; apply compare_parts_tag_lt in H; congruence.
  - intros x Hx Px. repeat split; apply _compare_versions_raises; auto.
Qed.

Lemma X3_witness :
  _compare_versions (Some "1.9") (Some "1.10") = true
  /\ _compare_versions (Some "1.10") (Some "1.9") = false
  /\ _compare_versions (Some "1.9") (Some "2.0") = true
  /\ _compare_versions (Some squared_rc1) (Some "1.9") = true
  /\ _compare_versions (Some "1.9") (Some squared_rc1) = true.
Proof.
  destruct (X3_compare_versions_strict_total "1.9" "1.10" "2.0"
              [1; 9]%N [1; 10]%N [2; 0]%N)
    as (_ & Hasym & Htrans & _ & Hraise); try discriminate; try reflexivity.
  destruct (Hraise squared_rc1) as (R1 & R2 & _); try discriminate; try reflexivity.
  split; [reflexivity|split; [|split; [|split]]].
  - apply Hasym. reflexivity.
  - apply Htrans; reflexivity.
  - exact R2.
  - exact R1.
Defined.

(** ** The share path *)

Section SharePath.

Lemma split_on_nonempty (sep : ascii) (s : string) : split_on sep s <> [].
Proof.
  induction s as [|c s IH]; cbn; [|destruct (Ascii.eqb c sep), (split_on sep s)];
    congruence.
Qed.

Lemma split_on_length (sep : ascii) (s : string) :
  List.length (split_on sep s) = S (count_char sep s).
Proof.
  unfold count_char. induction s as [|c s IH]; [reflexivity|]. cbn.
  rewrite (Ascii.eqb_sym sep c). destruct (Ascii.eqb c sep).
  - cbn. now rewrite IH.
  - destruct (split_on sep s) as [|part parts] eqn:E; [now destruct (split_on_nonempty sep s)|].
    cbn in *. exact IH.
Qed.

Lemma split_on_sep (sep : ascii) (a b : string) :
  count_char sep a = 0 ->
  split_on sep (a +:+ String sep b) = a :: split_on sep b.
Proof.
  unfold count_char. induction a as [|x a IH]; intros Ha.
  - rewrite app_empty_l. cbn. now rewrite Ascii.eqb_refl.
  - cbn in Ha. rewrite (Ascii.eqb_sym sep x) in Ha. rewrite app_String. cbn.
    destruct (Ascii.eqb x sep); [discriminate|]. now rewrite (IH Ha).
Qed.

Lemma split_on_plain (sep : ascii) (a : string) :
  count_char sep a = 0 -> split_on sep a = [a].
Proof.
  unfold count_char. induction a as [|x a IH]; intros Ha; [reflexivity|].
  cbn in Ha. rewrite (Ascii.eqb_sym sep x) in Ha. cbn.
  destruct (Ascii.eqb x sep); [discriminate|]. now rewrite (IH Ha).
Qed.

(** Joining the components of a string with the separator gives the string
    back. *)
Lemma join_split (sep : ascii) (s : string) : join_with sep (split_on sep s) = s.
Proof.
  induction s as [|c s IH]; [reflexivity|]. cbn [split_on].
  destruct (Ascii.eqb_spec c sep) as [->|_].
  - destruct (split_on sep s) as [|part parts] eqn:E; [now destruct (split_on_nonempty sep s)|].
    rewrite <- IH. reflexivity.
  - destruct (split_on sep s) as [|part parts] eqn:E; [now destruct (split_on_nonempty sep s)|].
    rewrite <- IH. destruct parts; reflexivity.
Qed.

End SharePath.

(** X4. A share path [\\server\share\rest], where [server] and [share] hold
    no backslash, is parsed into these three parts, whatever [rest] is, and
    [\\server\share] into [server], [share] and the empty path. The first two
    components of the path are not looked at. *)
Theorem X4_parse_share_path_unc (head1 head2 server share rest : string) :
  count_char backslash head1 = 0 -> count_char backslash head2 = 0 ->
  count_char backslash server = 0 -> count_char backslash share = 0 ->
  _parse_share_path
    (Some (head1 +:+ String backslash (head2 +:+ String backslash
             (server +:+ String backslash (share +:+ String backslash rest)))))
  = (Some server, Some share, Some rest)
  /\ _parse_share_path
       (Some (head1 +:+ String backslash (head2 +:+ String backslash
                (server +:+ String backslash share))))
     = (Some server, Some share, Some "").
Proof.
  intros H1 H2 H3 H4. unfold _parse_share_path. split.
  - rewrite !split_on_sep by assumption. cbn [lookup list_lookup drop List.length].
    rewrite split_on_length. cbn [Nat.ltb Nat.leb]. now rewrite drop_0, join_split.
  - rewrite !split_on_sep, (split_on_plain backslash share) by assumption.
    reflexivity.
Qed.

Lemma X4_witness :
  _parse_share_path (Some "\\fileserver\updates\siges\current")
  = (Some "fileserver", Some "updates", Some "siges\current")
  /\ _parse_share_path (Some "\\fileserver\updates")
     = (Some "fileserver", Some "updates", Some "").
Proof.
  exact (X4_parse_share_path_unc "" "" "fileserver" "updates" "siges\current"
           eq_refl eq_refl eq_refl eq_refl).
Defined.

(** X5. [_parse_share_path] sets the server name exactly when the path holds
    two backslashes or more, and the share name and the share path exactly
    when it holds three or more; with no configured path the three stay
    [None]. A path with a server and no share leaves a manager with a
    server name and no share name. *)
Theorem X5_parse_share_path_short (path : string) :
  let '(server_name, share_name, share_path) := _parse_share_path (Some path) in
  (is_Some server_name <-> 2 <= count_char backslash path)
  /\ (is_Some share_name <-> 3 <= count_char backslash path)
  /\ (is_Some share_path <-> 3 <= count_char backslash path)
  /\ _parse_share_path None = (None, None, None).
Proof.
  unfold _parse_share_path.
  pose proof (split_on_length backslash path) as L.
  destruct (split_on backslash path) as [|p0 [|p1 [|p2 [|p3 parts]]]];
    cbn in L; cbn [lookup list_lookup];
    repeat split; try (intros [x Hx]; discriminate); try lia; eauto.
Qed.

(** ** The session, again *)

Section SessionFacts.

Lemma session_kept_refl (s : state) : session_kept s s.
Proof. right. auto. Qed.

Lemma session_kept_trans (s1 s2 s3 : state) :
  session_kept s1 s2 -> session_kept s2 s3 -> session_kept s1 s3.
Proof.
  intros [H12|[C12 D12]] [H23|[C23 D23]]; try (left; congruence).
  right. split; congruence.
Qed.

Lemma session_kept_ok (s s' : state) :
  session_kept s s' -> session_ok s -> session_ok s'.
Proof.
  unfold session_ok. intros [H|[C D]] Hok; [auto|]. rewrite C, D. exact Hok.
Qed.

Lemma session_kept_fs (s : state) (m : gmap string file) :
  session_kept s (set_fs s m).
Proof. right. auto. Qed.

Lemma connect_kept (e : env) (s : state) : session_kept s (fst (connect e s)).
Proof.
  unfold connect. destruct (load_credentials e) as [username password].
  destruct (falsy username || falsy password); [apply session_kept_refl|].
  destruct (smb_connect e); left; reflexivity.
Qed.

Lemma ensure_connected_kept (e : env) (s : state) :
  session_kept s (fst (ensure_connected e s)).
Proof.
  unfold ensure_connected.
  destruct (negb (connected s) || negb (connection s));
    [apply connect_kept|apply session_kept_refl].
Qed.

Lemma list_updates_state (e : env) (s : state) :
  fst (list_updates e s) = fst (ensure_connected e s).
Proof.
  unfold list_updates. destruct (ensure_connected e s) as [s1 ok].
  destruct ok; cbn [negb]; [|reflexivity].
  destruct (smb_listPath e) as [files|]; [|reflexivity].
  now destruct (to_updates e files).
Qed.

Lemma list_updates_kept (e : env) (s : state) :
  session_kept s (fst (list_updates e s)).
Proof. rewrite list_updates_state. apply ensure_connected_kept. Qed.

Lemma _get_remote_version_kept (e : env) (s : state) :
  session_kept s (fst (_get_remote_version e s)).
Proof.
  unfold _get_remote_version.
  pose proof (ensure_connected_kept e s) as H1.
  destruct (ensure_connected e s) as [s1 ok]. cbn [fst] in H1.
  destruct ok; cbn [negb]; [|exact H1].
  pose proof (list_updates_kept e s1) as H2.
  destruct (list_updates e s1) as [s2 remote_files]. cbn [fst] in H2.
  pose proof (session_kept_trans _ _ _ H1 H2) as H.
  destruct remote_files; [exact H|].
  destruct (re_compile e _); [|exact H].
  destruct (List.filter _ _); exact H.
Qed.

Lemma _check_version_files_kept (e : env) (s : state) :
  session_kept s (fst (_check_version_files e s)).
Proof.
  unfold _check_version_files. destruct (_get_local_version e s) as [lf lv].
  destruct (falsy lf || falsy lv); [apply session_kept_refl|].
  pose proof (_get_remote_version_kept e s) as H.
  destruct (_get_remote_version e s) as [s1 [rf rv]]. cbn [fst] in H.
  destruct (falsy rf || falsy rv); exact H.
Qed.

Lemma check_for_updates_kept (e : env) (s : state) :
  session_kept s (fst (check_for_updates e s)).
Proof.
  unfold check_for_updates.
  pose proof (ensure_connected_kept e s) as H1.
  destruct (ensure_connected e s) as [s1 ok]. cbn [fst] in H1.
  destruct ok; cbn [negb]; [|exact H1].
  pose proof (_check_version_files_kept e s1) as H2.
  destruct (_check_version_files e s1) as [s2 [newer info]]. cbn [fst] in H2.
  pose proof (session_kept_trans _ _ _ H1 H2) as H12.
  destruct newer; cbn [negb]; [|exact H12].
  pose proof (list_updates_kept e s2) as H3.
  destruct (list_updates e s2) as [s3 remote_files]. cbn [fst] in H3.
  pose proof (session_kept_trans _ _ _ H12 H3) as H.
  destruct remote_files; exact H.
Qed.

Lemma download_file_kept (e : env) (filename : string) (s : state) :
  session_kept s (fst (download_file e filename s)).
Proof.
  unfold download_file.
  pose proof (ensure_connected_kept e s) as H1.
  destruct (ensure_connected e s) as [s1 ok]. cbn [fst] in H1.
  destruct ok; cbn [negb]; [|exact H1].
  destruct (open_raises e _); [exact H1|].
  destruct (smb_retrieveFile e _) as [bytes raised].
  assert (Hw : session_kept s (write_file e (with_suffix filename ".tmp") bytes s1))
    by (apply (session_kept_trans _ _ _ H1), session_kept_fs).
  destruct raised; [exact Hw|].
  destruct (_verify_file e filename _ _).
  - destruct (move_raises e _ _); [exact Hw|]. cbn [fst].
    apply (session_kept_trans _ _ _ Hw). unfold move.
    destruct (String.eqb _ _); [apply session_kept_refl|].
    destruct (fs _ !! _); [apply session_kept_fs|apply session_kept_refl].
  - destruct (fs _ !! _); [|exact Hw]. cbn [fst].
    apply (session_kept_trans _ _ _ Hw), session_kept_fs.
Qed.

Lemma download_each_kept (e : env) (update_list : list update) :
  forall s, session_kept s (fst (download_each e update_list s)).
Proof.
  induction update_list as [|u rest IH]; intros s; [apply session_kept_refl|].
  cbn [download_each].
  pose proof (download_file_kept e (upd_filename u) s) as H1.
  destruct (download_file e (upd_filename u) s) as [s1 ok]. cbn [fst] in H1.
  pose proof (IH s1) as H2.
  destruct (download_each e rest s1) as [s2 n]. cbn [fst] in *.
  exact (session_kept_trans _ _ _ H1 H2).
Qed.

Lemma download_updates_kept (e : env) (update_list : list update) (s : state) :
  session_kept s (fst (download_updates e update_list s)).
Proof.
  unfold download_updates.
  pose proof (ensure_connected_kept e s) as H1.
  destruct (ensure_connected e s) as [s1 ok]. cbn [fst] in H1.
  destruct ok; cbn [negb]; [|exact H1].
  destruct update_list as [|u rest].
  - pose proof (check_for_updates_kept e s1) as H2.
    destruct (check_for_updates e s1) as [s2 [has_updates l]]. cbn [fst] in H2.
    pose proof (session_kept_trans _ _ _ H1 H2) as H12.
    destruct has_updates; cbn [negb]; [|exact H12].
    pose proof (download_each_kept e l s2) as H3.
    destruct (download_each e l s2) as [s3 n]. cbn [fst] in *.
    exact (session_kept_trans _ _ _ H12 H3).
  - pose proof (download_each_kept e (u :: rest) s1) as H3.
    destruct (download_each e (u :: rest) s1) as [s3 n]. cbn [fst] in *.
    exact (session_kept_trans _ _ _ H1 H3).
Qed.

End SessionFacts.

(** X6. No operation of the share manager sets the flag [connected] without
    a connection object: a manager in which [connected] implies a connection
    is still such a manager after [connect], [ensure_connected],
    [disconnect], [list_updates], [check_for_updates], [download_file] and
    [download_updates]. *)
Theorem X6_session_invariant (e : env) (s : state) :
  session_ok s ->
  session_ok (fst (connect e s))
  /\ session_ok (fst (ensure_connected e s))
  /\ (forall close_raises, session_ok (disconnect close_raises s))
  /\ session_ok (fst (list_updates e s))
  /\ session_ok (fst (check_for_updates e s))
  /\ (forall filename, session_ok (fst (download_file e filename s)))
  /\ (forall update_list, session_ok (fst (download_updates e update_list s))).
Proof.
  intros Hok. repeat split.
  - exact (session_kept_ok _ _ (connect_kept e s) Hok).
  - exact (session_kept_ok _ _ (ensure_connected_kept e s) Hok).
  - intros close_raises. unfold disconnect.
    destruct (connection s); [|exact Hok].
    destruct close_raises; [exact Hok|]. intros H. discriminate.
  - exact (session_kept_ok _ _ (list_updates_kept e s) Hok).
  - exact (session_kept_ok _ _ (check_for_updates_kept e s) Hok).
  - intros filename. exact (session_kept_ok _ _ (download_file_kept e filename s) Hok).
  - intros l. exact (session_kept_ok _ _ (download_updates_kept e l s) Hok).
Qed.

Lemma X6_witness :
  session_ok (fst (check_for_updates (world stored newer_listing complete 200)
                     (offline marked_dir))).
Proof.
  refine (proj1 (proj2 (proj2 (proj2 (proj2
            (X6_session_invariant (world stored newer_listing complete 200)
               (offline marked_dir) _)))))).
  intros H. discriminate.
Defined.

(** X7. Once [ensure_connected] has returned [True], every later call returns
    [True] and leaves the manager as it is, whatever the server would answer
    then: the session is opened once and not probed again. *)
Theorem X7_ensure_connected_once (e e' : env) (s : state) :
  snd (ensure_connected e s) = true ->
  ensure_connected e' (fst (ensure_connected e s))
  = (fst (ensure_connected e s), true).
Proof.
  intros H. destruct (ensure_connected_true e s H) as [C N].
  now apply ensure_connected_open.
Qed.

Lemma X7_witness :
  let e := world stored newer_listing complete 200 in
  let e' := world no_credentials [] dropped 300 in
  ensure_connected e' (fst (ensure_connected e (offline marked_dir)))
  = (fst (ensure_connected e (offline marked_dir)), true).
Proof.
  intros e e'. exact (X7_ensure_connected_once e e' (offline marked_dir) eq_refl).
Defined.

(** X8. [disconnect] on a manager with a connection object closes the
    session and keeps the object and the local files; the next
    [ensure_connected] then connects again, with the stored credentials. When
    [close] raises, and when there is no connection object, the manager is
    left as it is. *)
Theorem X8_disconnect_then_reconnect (e : env) (s : state) :
  (connection s = true ->
   connected (disconnect false s) = false
   /\ connection (disconnect false s) = true
   /\ fs (disconnect false s) = fs s
   /\ ensure_connected e (disconnect false s) = connect e (disconnect false s))
  /\ disconnect true s = s
  /\ (connection s = false -> forall close_raises, disconnect close_raises s = s).
Proof.
  unfold disconnect. repeat split.
  - now rewrite H.
  - now rewrite H.
  - now rewrite H.
  - rewrite H. now apply ensure_connected_closed.
  - now destruct (connection s).
  - intros H close_raises. now rewrite H.
Qed.

Lemma X8_witness :
  let e := world stored newer_listing complete 200 in
  let s := online marked_dir in
  connected (disconnect false s) = false
  /\ ensure_connected e (disconnect false s) = (s, true).
Proof.
  intros e s.
  destruct (proj1 (X8_disconnect_then_reconnect e s) eq_refl) as (C & _ & _ & E).
  split; [exact C|]. rewrite E. reflexivity.
Defined.

(** ** Listing and deciding *)

Section DecisionFacts.

Lemma list_updates_result (e : env) (s : state) :
  snd (list_updates e s)
  = if snd (ensure_connected e s) then listed_updates e else [].
Proof.
  unfold list_updates, listed_updates. destruct (ensure_connected e s) as [s1 ok].
  destruct ok; cbn [negb snd]; [|reflexivity].
  destruct (smb_listPath e) as [files|]; [|reflexivity].
  now destruct (to_updates e files).
Qed.

Lemma is_update_kept (f : SharedFile) :
  is_update f = true <->
  sf_isDirectory f = false /\ sf_filename f <> "." /\ sf_filename f <> "..".
Proof.
  unfold is_update. rewrite andb_true_iff, !negb_true_iff, orb_false_iff.
  rewrite !String.eqb_neq. tauto.
Qed.

Lemma to_update_returns (e : env) (f : SharedFile) (u : update) :
  to_update e f = Returns u <->
  fromtimestamp e (sf_create_time f) = Returns (upd_create_time u)
  /\ fromtimestamp e (sf_last_write_time f) = Returns (upd_last_modified u)
  /\ upd_filename u = sf_filename f /\ upd_size u = sf_file_size f.
Proof.
  unfold to_update. split.
  - destruct (fromtimestamp e (sf_create_time f)); [|discriminate].
    destruct (fromtimestamp e (sf_last_write_time f)); [|discriminate].
    intros [= <-]. auto.
  - intros (-> & -> & Hn & Hs). destruct u. cbn in *. now subst.
Qed.

Lemma to_update_raises (e : env) (f : SharedFile) :
  to_update e f = Raises <->
  fromtimestamp e (sf_create_time f) = Raises
  \/ fromtimestamp e (sf_last_write_time f) = Raises.
Proof.
  unfold to_update.
  destruct (fromtimestamp e (sf_create_time f));
    destruct (fromtimestamp e (sf_last_write_time f));
    split; try discriminate; auto; intros [H|H]; discriminate.
Qed.

(** One entry whose conversion raises ends the loop. *)
Lemma to_updates_raises (e : env) (files : list SharedFile) (f : SharedFile) :
  In f files -> is_update f = true -> to_update e f = Raises ->
  to_updates e files = Raises.
Proof.
  intros Hin Hf Hr. induction files as [|g files IH]; [destruct Hin|].
  cbn [to_updates]. destruct Hin as [->|Hin].
  - now rewrite Hf, Hr.
  - rewrite (IH Hin). destruct (is_update g); [|reflexivity].
    now destruct (to_update e g).
Qed.

(** When every conversion returns, the loop returns the dictionaries of the
    entries kept, in their order. *)
Lemma to_updates_returns (e : env) (files : list SharedFile) :
  (forall f, In f files -> is_update f = true -> to_update e f <> Raises) ->
  exists updates,
    to_updates e files = Returns updates
    /\ map Returns updates = map (to_update e) (List.filter is_update files).
Proof.
  induction files as [|g files IH]; intros H; [now exists []|].
  destruct IH as (updates & E & M); [intros f Hf; apply H; now right|].
  cbn [to_updates List.filter]. rewrite E.
  destruct (is_update g) eqn:G; [|now exists updates].
  destruct (to_update e g) as [u|] eqn:U; [|now destruct (H g (or_introl eq_refl) G)].
  exists (u :: updates). cbn [map]. now rewrite M, U.
Qed.

Lemma list_updates_fs (e : env) (s : state) : fs (fst (list_updates e s)) = fs s.
Proof. rewrite list_updates_state. apply ensure_connected_fs. Qed.

Lemma _get_remote_version_fs (e : env) (s : state) :
  fs (fst (_get_remote_version e s)) = fs s.
Proof.
  unfold _get_remote_version.
  pose proof (ensure_connected_fs e s) as H1.
  destruct (ensure_connected e s) as [s1 ok]. cbn [fst] in H1.
  destruct ok; cbn [negb]; [|exact H1].
  pose proof (list_updates_fs e s1) as H2.
  destruct (list_updates e s1) as [s2 remote_files]. cbn [fst] in H2.
  assert (H : fs s2 = fs s) by congruence.
  destruct remote_files; [exact H|].
  destruct (re_compile e _); [|exact H].
  destruct (List.filter _ _); exact H.
Qed.

Lemma _check_version_files_fs (e : env) (s : state) :
  fs (fst (_check_version_files e s)) = fs s.
Proof.
  unfold _check_version_files. destruct (_get_local_version e s) as [lf lv].
  destruct (falsy lf || falsy lv); [reflexivity|].
  pose proof (_get_remote_version_fs e s) as H.
  destruct (_get_remote_version e s) as [s1 [rf rv]]. cbn [fst] in H.
  destruct (falsy rf || falsy rv); exact H.
Qed.

Lemma check_for_updates_fs (e : env) (s : state) :
  fs (fst (check_for_updates e s)) = fs s.
Proof.
  unfold check_for_updates.
  pose proof (ensure_connected_fs e s) as H1.
  destruct (ensure_connected e s) as [s1 ok]. cbn [fst] in H1.
  destruct ok; cbn [negb]; [|exact H1].
  pose proof (_check_version_files_fs e s1) as H2.
  destruct (_check_version_files e s1) as [s2 [newer info]]. cbn [fst] in H2.
  destruct newer; cbn [negb]; [|cbn; congruence].
  pose proof (list_updates_fs e s2) as H3.
  destruct (list_updates e s2) as [s3 remote_files]. cbn [fst] in H3.
  destruct remote_files; cbn; congruence.
Qed.

Lemma _update_version_info_fs (e : env) (um : manager) :
  fs (share_manager (_update_version_info e um)) = fs (share_manager um).
Proof.
  unfold _update_version_info.
  destruct (_get_local_version e (share_manager um)) as [lf lv].
  pose proof (_get_remote_version_fs e (share_manager um)) as H.
  destruct (_get_remote_version e (share_manager um)) as [s [rf rv]]. exact H.
Qed.

(** What the loop returns, when it returns. *)
Lemma to_updates_map (e : env) (files : list SharedFile) :
  forall updates,
    to_updates e files = Returns updates ->
    map Returns updates = map (to_update e) (List.filter is_update files).
Proof.
  induction files as [|g files IH]; intros updates H; cbn [to_updates List.filter] in *.
  - now injection H as <-.
  - destruct (is_update g); [|now apply IH].
    destruct (to_update e g) as [u|] eqn:U; [|discriminate].
    destruct (to_updates e files) as [us|]; [|discriminate].
    injection H as <-. cbn [map]. now rewrite U, (IH us eq_refl).
Qed.

Lemma listed_updates_in (e : env) (u : update) :
  In u (listed_updates e) ->
  exists files,
    smb_listPath e = Returns files
    /\ map Returns (listed_updates e) = map (to_update e) (List.filter is_update files).
Proof.
  unfold listed_updates. destruct (smb_listPath e) as [files|]; [|intros []].
  destruct (to_updates e files) as [updates|] eqn:E; [|intros []].
  intros _. exists files. split; [reflexivity|]. now apply to_updates_map.
Qed.

Lemma _get_remote_version_open (e : env) (s : state) :
  connected s = true -> connection s = true -> fst (_get_remote_version e s) = s.
Proof.
  intros C N. unfold _get_remote_version.
  rewrite (ensure_connected_open e s C N). cbn [negb].
  rewrite (list_updates_open e s C N).
  destruct (listed_updates e); [reflexivity|].
  destruct (re_compile e _); [|reflexivity].
  destruct (List.filter _ _); reflexivity.
Qed.

Lemma _check_version_files_open (e : env) (s : state) :
  connected s = true -> connection s = true -> fst (_check_version_files e s) = s.
Proof.
  intros C N. unfold _check_version_files.
  destruct (_get_local_version e s) as [lf lv].
  destruct (falsy lf || falsy lv); [reflexivity|].
  pose proof (_get_remote_version_open e s C N) as H.
  destruct (_get_remote_version e s) as [s1 [rf rv]]. cbn [fst] in H.
  destruct (falsy rf || falsy rv); exact H.
Qed.

(** [check_for_updates] over an open session. *)
Lemma check_for_updates_open (e : env) (s : state) :
  connected s = true -> connection s = true ->
  check_for_updates e s
  = (s, if has_newer_version e s
        then (Nat.ltb 0 (List.length
                (List.filter (fun u => _needs_update e s u (upd_filename u))
                   (listed_updates e))),
              List.filter (fun u => _needs_update e s u (upd_filename u)) (listed_updates e))
        else (false, [])).
Proof.
  intros C N. unfold check_for_updates, has_newer_version.
  rewrite (ensure_connected_open e s C N). cbn [negb].
  pose proof (_check_version_files_open e s C N) as H.
  destruct (_check_version_files e s) as [s1 [newer info]]. cbn [fst snd] in *.
  subst s1. destruct newer; cbn [negb]; [|reflexivity].
  rewrite (list_updates_open e s C N).
  destruct (listed_updates e); reflexivity.
Qed.

(** The two shapes of what [check_for_updates] returns. *)
Lemma check_for_updates_shape (e : env) (s : state) :
  snd (check_for_updates e s) = (false, [])
  \/ snd (check_for_updates e s)
     = (Nat.ltb 0 (List.length
          (List.filter (fun u => _needs_update e s u (upd_filename u))
             (listed_updates e))),
        List.filter (fun u => _needs_update e s u (upd_filename u)) (listed_updates e)).
Proof.
  unfold check_for_updates.
  pose proof (ensure_connected_fs e s) as H1.
  destruct (ensure_connected e s) as [s1 ok]. cbn [fst] in H1.
  destruct ok; cbn [negb]; [|now left].
  pose proof (_check_version_files_fs e s1) as H2.
  destruct (_check_version_files e s1) as [s2 [newer info]]. cbn [fst] in H2.
  destruct newer; cbn [negb]; [|now left].
  pose proof (list_updates_fs e s2) as H3.
  pose proof (list_updates_result e s2) as H4.
  destruct (list_updates e s2) as [s3 remote_files]. cbn [fst snd] in H3, H4.
  destruct remote_files as [|u l]; [now left|]. right. cbn [snd].
  destruct (snd (ensure_connected e s2)); [|discriminate]. rewrite <- H4.
  assert (E : List.filter (fun u0 => _needs_update e s3 u0 (upd_filename u0)) (u :: l)
              = List.filter (fun u0 => _needs_update e s u0 (upd_filename u0)) (u :: l)).
  { apply List.filter_ext. intros u0. apply _needs_update_fs. congruence. }
  now rewrite E.
Qed.

Lemma max_by_in {A : Type} (key : A -> Z) (l : list A) :
  forall best, In (max_by key best l) (best :: l).
Proof.
  induction l as [|x l IH]; intros best; cbn [max_by]; [now left|].
  destruct (IH (if (key best <? key x)%Z then x else best)) as [H|H].
  - rewrite <- H. destruct (key best <? key x)%Z; [right; now left|now left].
  - right. now right.
Qed.

Lemma max_by_ge_best {A : Type} (key : A -> Z) (l : list A) :
  forall best, (key best <= key (max_by key best l))%Z.
Proof.
  induction l as [|x l IH]; intros best; cbn [max_by]; [lia|].
  specialize (IH (if (key best <? key x)%Z then x else best)).
  destruct (Z.ltb_spec (key best) (key x)); lia.
Qed.

Lemma max_by_max {A : Type} (key : A -> Z) (l : list A) :
  forall best x, In x (best :: l) -> (key x <= key (max_by key best l))%Z.
Proof.
  induction l as [|y l IH]; intros best x Hin; cbn [max_by].
  - destruct Hin as [<-|[]]. lia.
  - destruct Hin as [<-|[<-|Hin]].
    + pose proof (max_by_ge_best key l (if (key best <? key y)%Z then y else best)).
      destruct (Z.ltb_spec (key best) (key y)); lia.
    + pose proof (max_by_ge_best key l (if (key best <? key y)%Z then y else best)).
      destruct (Z.ltb_spec (key best) (key y)); lia.
    + apply IH. now right.
Qed.

End DecisionFacts.

(** X9. [list_updates] returns the empty list when the session cannot be
    opened, when the listing raises, and when a time of a listed entry that
    is not a directory and is not named [.] or [..] cannot be converted to a
    local datetime. Otherwise it returns, in the order of the listing, one
    entry for every such listed entry, with its name, its size and its two
    times converted, and nothing else. *)
Theorem X9_list_updates_entries (e : env) (s : state) :
  (snd (ensure_connected e s) = false -> snd (list_updates e s) = [])
  /\ (smb_listPath e = Raises -> snd (list_updates e s) = [])
  /\ (forall files f,
         smb_listPath e = Returns files -> In f files ->
         sf_isDirectory f = false -> sf_filename f <> "." -> sf_filename f <> ".." ->
         fromtimestamp e (sf_create_time f) = Raises
         \/ fromtimestamp e (sf_last_write_time f) = Raises ->
         snd (list_updates e s) = [])
  /\ (forall files,
         snd (ensure_connected e s) = true -> smb_listPath e = Returns files ->
         (forall f, In f files ->
                    sf_isDirectory f = false ->
                    sf_filename f <> "." -> sf_filename f <> ".." ->
                    fromtimestamp e (sf_create_time f) <> Raises
                    /\ fromtimestamp e (sf_last_write_time f) <> Raises) ->
         map upd_filename (snd (list_updates e s))
         = List.filter (fun name => negb (String.eqb name "." || String.eqb name ".."))
             (map sf_filename (List.filter (fun f => negb (sf_isDirectory f)) files))
         /\ forall u : update,
             In u (snd (list_updates e s)) <->
             exists f,
               In f files /\ sf_isDirectory f = false
               /\ sf_filename f <> "." /\ sf_filename f <> ".."
               /\ fromtimestamp e (sf_create_time f) = Returns (upd_create_time u)
               /\ fromtimestamp e (sf_last_write_time f) = Returns (upd_last_modified u)
               /\ upd_filename u = sf_filename f /\ upd_size u = sf_file_size f).
Proof.
  rewrite list_updates_result. unfold listed_updates.
  split; [|split; [|split]].
  - now intros ->.
  - intros ->. now destruct (snd (ensure_connected e s)).
  - intros files f -> Hin Hdir H1 H2 Hraise.
    rewrite (to_updates_raises e files f Hin).
    + now destruct (snd (ensure_connected e s)).
    + apply is_update_kept. auto.
    + now apply to_update_raises.
  - intros files -> -> Hconv.
    destruct (to_updates_returns e files) as (updates & -> & M).
    { intros f Hin Hf Hr. apply is_update_kept in Hf as (Hdir & H1 & H2).
      apply to_update_raises in Hr. destruct (Hconv f Hin Hdir H1 H2). tauto. }
    split.
    + clear Hconv. revert updates M.
      induction files as [|f files IH]; intros updates M.
      * destruct updates; [reflexivity|discriminate].
      * cbn [List.filter] in *. unfold is_update at 1 in M.
        destruct (sf_isDirectory f); cbn [negb] in *.
        { rewrite andb_false_r in M. now apply IH. }
        rewrite andb_true_r in M. cbn [map List.filter].
        destruct (negb _).
        -- destruct updates as [|u updates]; [discriminate|]. cbn [map] in *.
           injection M as Hu M. symmetry in Hu.
           apply to_update_returns in Hu as (_ & _ & -> & _).
           now rewrite (IH updates M).
        -- now apply IH.
    + intros u. split.
      * intros Hu. apply (in_map Returns) in Hu. rewrite M in Hu.
        apply in_map_iff in Hu as (f & Hf & Hin).
        apply filter_In in Hin as [Hin Hkept].
        apply is_update_kept in Hkept as (Hdir & H1 & H2).
        apply to_update_returns in Hf. exists f. tauto.
      * intros (f & Hin & Hdir & H1 & H2 & Hf).
        assert (Hu : In (Returns u) (map Returns updates)).
        { rewrite M. apply in_map_iff. exists f. split.
          - now apply to_update_returns.
          - apply filter_In. split; [assumption|]. now apply is_update_kept. }
        apply in_map_iff in Hu as (u' & [= ->] & Hu). exact Hu.
Qed.

Lemma X9_witness :
  let e := world stored data_listing complete 200 in
  map upd_filename (snd (list_updates e (offline ∅))) = ["data.bin"]
  /\ snd (list_updates e (offline ∅)) = [Update "data.bin" 5 10 10].
Proof.
  intros e. split; [|reflexivity].
  refine (proj1 (proj2 (proj2 (proj2 (X9_list_updates_entries e (offline ∅))))
                   data_listing eq_refl eq_refl _)).
  intros f _ _ _ _. split; discriminate.
Defined.

(** X10. Looking never writes: [list_updates], [_get_remote_version],
    [_check_version_files], [check_for_updates] and
    [_update_version_info] leave every local file as it is, and so does
    [check_updates]. *)
Theorem X10_checks_do_not_write (e : env) (s : state) (um : manager) :
  fs (fst (list_updates e s)) = fs s
  /\ fs (fst (_get_remote_version e s)) = fs s
  /\ fs (fst (_check_version_files e s)) = fs s
  /\ fs (fst (check_for_updates e s)) = fs s
  /\ fs (share_manager (_update_version_info e um)) = fs (share_manager um)
  /\ fs (share_manager (fst (check_updates e um))) = fs (share_manager um).
Proof.
  split; [apply list_updates_fs|split; [apply _get_remote_version_fs|]].
  split; [apply _check_version_files_fs|split; [apply check_for_updates_fs|]].
  split; [apply _update_version_info_fs|].
  unfold check_updates.
  pose proof (_update_version_info_fs e (set_status um checking)) as H1.
  pose proof (check_for_updates_fs e
                (share_manager (_update_version_info e (set_status um checking)))) as H2.
  destruct (check_for_updates e _) as [s1 result]. cbn in *. congruence.
Qed.

(** X11. Every candidate that [check_for_updates] returns is an entry of
    the listing that [_needs_update] selects against the local files, and an
    update is reported exactly when there is a candidate. Over an open
    session the candidates are all such entries, in the order of the listing,
    when the version gate reports a newer version, and none otherwise. *)
Theorem X11_candidates (e : env) (s : state) :
  (forall u, In u (snd (snd (check_for_updates e s))) ->
             In u (listed_updates e) /\ _needs_update e s u (upd_filename u) = true)
  /\ fst (snd (check_for_updates e s))
     = negb (Nat.eqb (List.length (snd (snd (check_for_updates e s)))) 0)
  /\ (connected s = true -> connection s = true ->
      snd (snd (check_for_updates e s))
      = if has_newer_version e s
        then List.filter (fun u => _needs_update e s u (upd_filename u)) (listed_updates e)
        else []).
Proof.
  split; [|split].
  - intros u. destruct (check_for_updates_shape e s) as [-> | ->]; cbn [snd].
    + intros [].
    + intros H. now apply filter_In in H.
  - destruct (check_for_updates_shape e s) as [-> | ->]; cbn [fst snd]; [reflexivity|].
    now destruct (List.filter _ _).
  - intros C N. rewrite (check_for_updates_open e s C N). cbn [snd].
    now destruct (has_newer_version e s).
Qed.

Lemma X11_witness :
  let e := world stored newer_listing complete 200 in
  let s := online marked_dir in
  snd (snd (check_for_updates e s))
  = [Update "SIGES 1.1.txt" 6 10 10; Update "data.bin" 5 10 10].
Proof.
  intros e s.
  exact (proj2 (proj2 (X11_candidates e s)) eq_refl eq_refl).
Defined.

(** X12. When the pattern can be matched, the local marker is a file of the
    directory that the pattern selects and that no selected file is younger
    than, with the version text of its name; there is no local marker
    exactly when the pattern selects no file of the directory. *)
Theorem X12_local_marker_latest (e : env) (s : state) (selects : string -> bool) :
  path_glob e (version_file_pattern e) = Returns selects ->
  (forall f v,
      _get_local_version e s = (Some f, Some v) ->
      v = _extract_version_from_filename f /\ selects f = true
      /\ exists file,
          fs s !! f = Some file
          /\ forall g file', fs s !! g = Some file' -> selects g = true ->
                             (mtime file' <= mtime file)%Z)
  /\ (_get_local_version e s = (None, None) <->
      forall g file', fs s !! g = Some file' -> selects g = false).
Proof.
  intros Hglob. split.
  - intros f v. unfold _get_local_version, local_files. rewrite Hglob.
    destruct (List.filter _ _) as [|p l] eqn:E; [discriminate|].
    set (latest := max_by (fun p => mtime p.2) p l). intros [= <- <-].
    assert (Hin : In latest (List.filter (fun p => selects p.1) (map_to_list (fs s))))
      by (rewrite E; apply max_by_in).
    apply filter_In in Hin as [Hin Hsel].
    split; [reflexivity|split; [exact Hsel|]].
    exists (snd latest). split.
    + apply elem_of_map_to_list, list_elem_of_In. now destruct latest.
    + intros g file' Hg Hsg.
      apply (max_by_max (fun p => mtime p.2) l p (g, file')).
      rewrite <- E. apply filter_In. split; [|exact Hsg].
      now apply list_elem_of_In, elem_of_map_to_list.
  - split.
    + intros H g file' Hg. destruct (selects g) eqn:Hsg; [|reflexivity]. exfalso.
      unfold _get_local_version, local_files in H. rewrite Hglob in H.
      assert (Hin : In (g, file') (List.filter (fun p => selects p.1) (map_to_list (fs s)))).
      { apply filter_In. split; [|exact Hsg].
        now apply list_elem_of_In, elem_of_map_to_list. }
      destruct (List.filter _ _); [destruct Hin|discriminate].
    + intros H. now apply (_get_local_version_unmarked e s selects).
Qed.

Lemma X12_witness :
  let e := world stored newer_listing complete 200 in
  _get_local_version e (online marked_dir) = (Some "SIGES 1.0.txt", Some "1.0")
  /\ "1.0" = _extract_version_from_filename "SIGES 1.0.txt".
Proof.
  intros e. split; [reflexivity|].
  exact (proj1 (proj1 (X12_local_marker_latest e (online marked_dir)
                         (glob "SIGES *.txt") eq_refl)
                  "SIGES 1.0.txt" "1.0" eq_refl)).
Defined.

(** X13. A remote marker is the name of an entry of the listing, not a
    directory, that the pattern matches, with the version text of that name;
    the local datetime to which its time of last write converts is not before
    the one of any other such entry. *)
Theorem X13_remote_marker_latest (e : env) (s : state) (name v : string) :
  snd (_get_remote_version e s) = (Some name, Some v) ->
  v = _extract_version_from_filename name
  /\ exists matches files f modified,
      re_compile e (replace_star (version_file_pattern e)) = Returns matches
      /\ smb_listPath e = Returns files
      /\ In f files /\ sf_isDirectory f = false /\ sf_filename f = name
      /\ matches name = true
      /\ fromtimestamp e (sf_last_write_time f) = Returns modified
      /\ forall f' modified',
          In f' files -> sf_isDirectory f' = false ->
          sf_filename f' <> "." -> sf_filename f' <> ".." ->
          matches (sf_filename f') = true ->
          fromtimestamp e (sf_last_write_time f') = Returns modified' ->
          (modified' <= modified)%Z.
Proof.
  unfold _get_remote_version.
  destruct (ensure_connected e s) as [s1 ok].
  destruct ok; cbn [negb]; [|discriminate].
  pose proof (list_updates_result e s1) as HL.
  destruct (list_updates e s1) as [s2 remote_files]. cbn [snd] in HL.
  destruct remote_files as [|u0 l0] eqn:ER; [discriminate|].
  destruct (snd (ensure_connected e s1)); [|discriminate]. rewrite <- ER in *.
  clear ER u0 l0. subst remote_files.
  destruct (re_compile e _) as [matches|]; [|discriminate].
  destruct (List.filter _ _) as [|p l] eqn:E; [discriminate|].
  set (latest := max_by upd_last_modified p l). intros [= <- <-].
  assert (Hin : In latest (List.filter (fun u => matches (upd_filename u))
                             (listed_updates e)))
    by (rewrite E; apply max_by_in).
  apply filter_In in Hin as [Hin Hm].
  split; [reflexivity|].
  destruct (listed_updates_in e latest Hin) as (files & Hfiles & M).
  assert (Hl : In (Returns latest) (map (to_update e) (List.filter is_update files)))
    by (rewrite <- M; now apply in_map).
  apply in_map_iff in Hl as (f & Hf & Hkept). apply filter_In in Hkept as [Hf_in Hkept].
  apply is_update_kept in Hkept as (Hdir & _ & _).
  apply to_update_returns in Hf as (_ & Hmod & Hname & _).
  exists matches, files, f, (upd_last_modified latest).
  rewrite <- Hname.
  split; [reflexivity|split; [assumption|split; [assumption|split; [assumption|]]]].
  split; [reflexivity|split; [assumption|split; [assumption|]]].
  intros f' modified' Hf' Hdir' H1 H2 Hm' Hmod'.
  assert (Hu : In (to_update e f') (map Returns (listed_updates e))).
  { rewrite M. apply in_map, filter_In. split; [assumption|].
    apply is_update_kept. auto. }
  apply in_map_iff in Hu as (u' & Hu' & Hin').
  symmetry in Hu'. apply to_update_returns in Hu' as (_ & Hmod'' & Hname' & _).
  rewrite Hmod' in Hmod''. injection Hmod'' as ->.
  apply (max_by_max upd_last_modified l p u').
  rewrite <- E. apply filter_In. split; [assumption|]. now rewrite Hname'.
Qed.

Lemma X13_witness :
  let e := world stored newer_listing complete 200 in
  snd (_get_remote_version e (offline marked_dir)) = (Some "SIGES 1.1.txt", Some "1.1")
  /\ "1.1" = _extract_version_from_filename "SIGES 1.1.txt".
Proof.
  intros e. split; [reflexivity|].
  exact (proj1 (X13_remote_marker_latest e (offline marked_dir)
                  "SIGES 1.1.txt" "1.1" eq_refl)).
Defined.



(** ** Transfers *)

Section TransferFacts.

Lemma download_file_result (e : env) (filename : string) (s : state) :
  snd (download_file e filename s)
  = snd (ensure_connected e s) && transferable e filename.
Proof.
  unfold download_file, transferable.
  destruct (ensure_connected e s) as [s1 ok]. destruct ok; cbn [negb snd andb];
    [|reflexivity].
  destruct (open_raises e _); [reflexivity|]. cbn [negb andb].
  destruct (smb_retrieveFile e _) as [bytes raised]. cbn [fst snd].
  destruct raised; [reflexivity|]. cbn [negb andb].
  rewrite _verify_file_written. destruct (size_verified e filename bytes).
  - now destruct (move_raises e _ _).
  - cbn [andb]. now destruct (fs _ !! _).
Qed.

Lemma download_file_open (e : env) (filename : string) (s : state) :
  connected s = true -> connection s = true ->
  connected (fst (download_file e filename s)) = true
  /\ connection (fst (download_file e filename s)) = true.
Proof.
  intros C N. unfold download_file. rewrite (ensure_connected_open e s C N).
  cbn [negb]. destruct (open_raises e _); [auto|].
  destruct (smb_retrieveFile e _) as [bytes raised].
  destruct raised; [auto|].
  destruct (_verify_file e filename _ _).
  - destruct (move_raises e _ _); [auto|]. cbn [fst]. unfold move.
    destruct (String.eqb _ _); [auto|]. destruct (fs _ !! _); auto.
  - destruct (fs _ !! _); auto.
Qed.

(** What a download that returns [True] has done. *)
Lemma download_file_success (e : env) (filename : string) (s : state) :
  snd (download_file e filename s) = true ->
  let bytes := fst (smb_retrieveFile e (remote_path_of e filename)) in
  fs (fst (download_file e filename s)) !! filename = Some (File bytes (now e))
  /\ smb_getAttributes e (remote_path_of e filename) = Returns (String.length bytes)
  /\ (with_suffix filename ".tmp" <> filename ->
      fs (fst (download_file e filename s)) !! with_suffix filename ".tmp" = None).
Proof.
  unfold download_file.
  destruct (ensure_connected e s) as [s1 ok]. destruct ok; cbn [negb]; [|discriminate].
  destruct (open_raises e _); [discriminate|].
  destruct (smb_retrieveFile e _) as [bytes raised]. cbn [fst].
  destruct raised; [discriminate|]. rewrite _verify_file_written.
  destruct (size_verified e filename bytes) eqn:V.
  2:{ destruct (fs _ !! _); discriminate. }
  destruct (move_raises e _ _); [discriminate|]. intros _. cbn [fst].
  split; [|split].
  - unfold move. destruct (String.eqb_spec (with_suffix filename ".tmp") filename)
      as [Heq|Hne].
    + cbn. rewrite Heq. apply lookup_insert_eq.
    + cbn [write_file fs set_fs]. rewrite lookup_insert_eq. cbn [fs set_fs].
      apply lookup_insert_eq.
  - unfold size_verified in V.
    destruct (smb_getAttributes e _) as [n|]; [|discriminate].
    apply Nat.eqb_eq in V. now subst n.
  - intros Hne. unfold move. apply String.eqb_neq in Hne as Hneb. rewrite Hneb.
    cbn [write_file fs set_fs]. rewrite lookup_insert_eq. cbn [fs set_fs].
    rewrite lookup_insert_ne by congruence. apply lookup_delete_eq.
Qed.

Lemma download_each_count (e : env) (update_list : list update) :
  forall s, connected s = true -> connection s = true ->
    snd (download_each e update_list s)
    = List.length (List.filter (fun u => transferable e (upd_filename u)) update_list).
Proof.
  induction update_list as [|u rest IH]; intros s C N; [reflexivity|].
  cbn [download_each List.filter].
  pose proof (download_file_result e (upd_filename u) s) as R.
  destruct (download_file_open e (upd_filename u) s C N) as [C1 N1].
  destruct (download_file e (upd_filename u) s) as [s1 ok]. cbn [fst snd] in *.
  rewrite (ensure_connected_open e s C N) in R. cbn [snd andb] in R.
  specialize (IH s1 C1 N1). destruct (download_each e rest s1) as [s2 n].
  cbn [snd] in *. subst ok n. now destruct (transferable e (upd_filename u)).
Qed.

Lemma filter_all_length {A : Type} (p : A -> bool) (l : list A) :
  Nat.eqb (List.length (List.filter p l)) (List.length l) = forallb p l.
Proof.
  induction l as [|x l IH]; [reflexivity|]. cbn [List.filter forallb].
  destruct (p x); cbn [andb List.length]; [exact IH|].
  apply Nat.eqb_neq. pose proof (List.filter_length_le p l). lia.
Qed.

End TransferFacts.

(** X15. A download writes no path other than its destination and its
    temporary path, whatever its outcome. *)
Theorem X15_download_file_frame (e : env) (filename path : string) (s : state) :
  path <> filename -> path <> with_suffix filename ".tmp" ->
  fs (fst (download_file e filename s)) !! path = fs s !! path.
Proof.
  intros Hf Ht. unfold download_file.
  pose proof (ensure_connected_fs e s) as Hfs.
  destruct (ensure_connected e s) as [s1 ok]. cbn [fst] in Hfs.
  destruct ok; cbn [negb]; [|cbn; now rewrite Hfs].
  destruct (open_raises e _); [cbn; now rewrite Hfs|].
  destruct (smb_retrieveFile e _) as [bytes raised].
  assert (Hw : fs (write_file e (with_suffix filename ".tmp") bytes s1) !! path
               = fs s !! path).
  { cbn. rewrite lookup_insert_ne by congruence. now rewrite Hfs. }
  destruct raised; [exact Hw|].
  destruct (_verify_file e filename _ _).
  - destruct (move_raises e _ _); [exact Hw|]. cbn [fst]. unfold move.
    destruct (String.eqb _ _); [exact Hw|].
    destruct (fs (write_file e _ bytes s1) !! with_suffix filename ".tmp") eqn:E;
      [|exact Hw].
    cbn [fs set_fs]. rewrite lookup_insert_ne, lookup_delete_ne by congruence.
    exact Hw.
  - destruct (fs (write_file e _ bytes s1) !! with_suffix filename ".tmp") eqn:E;
      [|exact Hw].
    cbn [fst]. unfold unlink. cbn [fs set_fs].
    rewrite lookup_delete_ne by congruence. exact Hw.
Qed.

Lemma X15_witness :
  fs (fst (download_file (world stored share_listing dropped 200) "data.bin"
             (online local_dir))) !! "patch.tmp"
  = Some (File "older" 5).
Proof.
  rewrite (X15_download_file_frame (world stored share_listing dropped 200)
             "data.bin" "patch.tmp" (online local_dir)); [reflexivity| |];
    discriminate.
Defined.

(** X16. When [download_file] returns [True], the destination holds the
    bytes that the server delivered, with the time of the download, their
    number is the size that the server reports for the file, and the
    temporary file, when it is another path, is gone. *)
Theorem X16_download_file_success (e : env) (filename : string) (s : state) :
  snd (download_file e filename s) = true ->
  fs (fst (download_file e filename s)) !! filename
  = Some (File (fst (smb_retrieveFile e (remote_path_of e filename))) (now e))
  /\ smb_getAttributes e (remote_path_of e filename)
     = Returns (String.length (fst (smb_retrieveFile e (remote_path_of e filename))))
  /\ (with_suffix filename ".tmp" <> filename ->
      fs (fst (download_file e filename s)) !! with_suffix filename ".tmp" = None).
Proof. exact (download_file_success e filename s). Qed.

Lemma X16_witness :
  let e := world stored share_listing complete 200 in
  fs (fst (download_file e "data.bin" (online local_dir))) !! "data.bin"
  = Some (File "newer" 200)
  /\ fs (fst (download_file e "data.bin" (online local_dir))) !! "data.tmp" = None.
Proof.
  intros e.
  destruct (X16_download_file_success e "data.bin" (online local_dir) eq_refl)
    as (D & _ & T).
  split; [exact D|]. apply T. discriminate.
Defined.

(** X17. Whether a download succeeds does not depend on the local files: it
    returns [True] exactly when the session is open or can be opened, the
    temporary file can be opened, the read completes, the size read is the
    size reported, and the move is not refused. The content read is not
    compared with anything. *)
Theorem X17_download_file_outcome (e : env) (filename : string) (s : state) :
  snd (download_file e filename s)
  = snd (ensure_connected e s)
    && negb (open_raises e (with_suffix filename ".tmp"))
    && negb (snd (smb_retrieveFile e (remote_path_of e filename)))
    && match smb_getAttributes e (remote_path_of e filename) with
       | Returns remote_size =>
           Nat.eqb (String.length (fst (smb_retrieveFile e (remote_path_of e filename))))
             remote_size
       | Raises => false
       end
    && negb (move_raises e (with_suffix filename ".tmp") filename).
Proof.
  rewrite download_file_result. unfold transferable, size_verified.
  now rewrite !andb_assoc.
Qed.

(** X18. Over an open session, [download_updates] on a list that is not
    empty attempts every file and returns [True] exactly when every file of
    the list can be transferred: a file that fails does not stop the files
    after it, and does not change their outcome. *)
Theorem X18_download_updates_all (e : env) (update_list : list update) (s : state) :
  connected s = true -> connection s = true -> update_list <> [] ->
  snd (download_updates e update_list s)
  = forallb (fun u => transferable e (upd_filename u)) update_list
  /\ snd (download_each e update_list s)
     = List.length (List.filter (fun u => transferable e (upd_filename u)) update_list).
Proof.
  intros C N Hne. split; [|now apply download_each_count].
  unfold download_updates. rewrite (ensure_connected_open e s C N). cbn [negb].
  destruct update_list as [|u rest]; [congruence|].
  pose proof (download_each_count e (u :: rest) s C N) as H.
  destruct (download_each e (u :: rest) s) as [s1 n]. cbn [snd] in *. subst n.
  apply filter_all_length.
Qed.

Lemma X18_witness :
  let e := world stored short_listing complete 200 in
  let l := [Update "patch.tmp" 4 10 10; Update "data.bin" 5 10 10] in
  snd (download_updates e l (online local_dir)) = false
  /\ snd (download_each e l (online local_dir)) = 0.
Proof.
  intros e l.
  destruct (X18_download_updates_all e l (online local_dir) eq_refl eq_refl) as [A B].
  - discriminate.
  - split; [rewrite A|rewrite B]; reflexivity.
Defined.

(** X19. After a download of a listed file that returned [True], when the
    size of the listing is the size that the server reports for the file,
    the file needs an update again exactly when the time of the download
    cannot be converted to a local datetime, or the local datetime of the
    download is before the one that the listing gives for the file. *)
Theorem X19_downloaded_file_is_current (e : env) (u : update) (s : state) :
  snd (download_file e (upd_filename u) s) = true ->
  smb_getAttributes e (remote_path_of e (upd_filename u)) = Returns (upd_size u) ->
  _needs_update e (fst (download_file e (upd_filename u) s)) u (upd_filename u)
  = match fromtimestamp e (now e) with
    | Raises => true
    | Returns local_time => (local_time <? upd_last_modified u)%Z
    end.
Proof.
  intros Hok Hsize.
  destruct (download_file_success e (upd_filename u) s Hok) as (Hfile & Hattr & _).
  unfold _needs_update. rewrite Hfile. cbn [data mtime].
  rewrite Hsize in Hattr. injection Hattr as <-. rewrite Nat.eqb_refl. cbn [negb].
  destruct (fromtimestamp e (now e)) as [local_time|]; [|reflexivity].
  now destruct (local_time <? upd_last_modified u)%Z.
Qed.

Lemma X19_witness :
  let e := world stored share_listing complete 200 in
  let u := Update "data.bin" 5 10 10 in
  _needs_update e (online local_dir) u "data.bin" = true
  /\ _needs_update e (fst (download_file e "data.bin" (online local_dir))) u "data.bin"
     = false.
Proof.
  intros e u. split; [reflexivity|].
  etransitivity;
    [exact (X19_downloaded_file_is_current e u (online local_dir) eq_refl eq_refl)|].
  reflexivity.
Defined.

(** X20. While the session is closed and cannot be opened, [download_file]
    and [download_updates] return [False] and leave every local file as it
    is. *)
Theorem X20_no_session_no_transfer (e : env) (s : state) :
  connected s = false -> snd (connect e s) = false ->
  (forall filename,
      snd (download_file e filename s) = false
      /\ fs (fst (download_file e filename s)) = fs s)
  /\ (forall update_list,
         snd (download_updates e update_list s) = false
         /\ fs (fst (download_updates e update_list s)) = fs s).
Proof.
  intros C H. split.
  - intros filename. unfold download_file. rewrite (ensure_connected_closed e s C).
    pose proof (connect_fs e s) as F.
    destruct (connect e s) as [s1 ok]. cbn [fst snd] in *. now subst ok.
  - intros l. unfold download_updates. rewrite (ensure_connected_closed e s C).
    pose proof (connect_fs e s) as F.
    destruct (connect e s) as [s1 ok]. cbn [fst snd] in *. now subst ok.
Qed.

Lemma X20_witness :
  let e := world no_credentials share_listing complete 200 in
  snd (download_updates e [Update "data.bin" 5 10 10] (offline local_dir)) = false
  /\ fs (fst (download_updates e [Update "data.bin" 5 10 10] (offline local_dir)))
     = local_dir.
Proof.
  intros e.
  exact (proj2 (X20_no_session_no_transfer e (offline local_dir) eq_refl eq_refl)
           [Update "data.bin" 5 10 10]).
Defined.

(** ** The cycle, again *)

Section CycleFacts.

(** The ways in which a cycle ends. *)
Lemma cycle_cases (e : env) (um : manager) :
  (_is_app_running e = Raises
   /\ snd (check_and_download_updates e um) = false
   /\ update_status (fst (check_and_download_updates e um)) = error
   /\ fs (share_manager (fst (check_and_download_updates e um)))
      = fs (share_manager um))
  \/ (_is_app_running e <> Raises
      /\ ((snd (check_and_download_updates e um) = false
           /\ update_status (fst (check_and_download_updates e um)) = up_to_date
           /\ fs (share_manager (fst (check_and_download_updates e um)))
              = fs (share_manager um))
          \/ (snd (check_and_download_updates e um) = true
              /\ update_status (fst (check_and_download_updates e um)) = downloaded)
          \/ (snd (check_and_download_updates e um) = false
              /\ update_status (fst (check_and_download_updates e um))
                 = download_failed))).
Proof.
  unfold check_and_download_updates.
  destruct (_is_app_running e) as [app_running|]; [right|left; auto].
  split; [discriminate|].
  cbn [share_manager set_status set_last_check_time].
  pose proof (check_for_updates_fs e (share_manager um)) as F.
  destruct (check_for_updates e (share_manager um)) as [s [has_updates updates_list]].
  cbn [fst] in F. destruct has_updates; cbn [negb].
  - right. destruct (download_updates e updates_list _) as [s' success].
    destruct success; [left|right]; cbn [fst snd]; (split; [reflexivity|]).
    + destruct app_running.
      * rewrite (proj1 (_notify_status e _)).
        now rewrite (proj1 (_update_version_info_status e _)).
      * now rewrite (proj1 (_update_version_info_status e _)).
    + reflexivity.
  - left. cbn [fst snd]. split; [reflexivity|split; [reflexivity|]].
    cbn [share_manager set_status]. now rewrite _update_version_info_fs.
Qed.

End CycleFacts.

(** X21. A cycle ends with the status [up_to_date], [downloaded],
    [download_failed] or [error] and with the time of the call as the time of
    the last check; it returns [True] exactly when the status is
    [downloaded], and the status is [error] exactly when the lookup of the
    running processes raises. *)
Theorem X21_cycle_outcome (e : env) (um : manager) :
  (update_status (fst (check_and_download_updates e um)) = up_to_date
   \/ update_status (fst (check_and_download_updates e um)) = downloaded
   \/ update_status (fst (check_and_download_updates e um)) = download_failed
   \/ update_status (fst (check_and_download_updates e um)) = error)
  /\ last_check_time (fst (check_and_download_updates e um)) = Some (now e)
  /\ (snd (check_and_download_updates e um) = true
      <-> update_status (fst (check_and_download_updates e um)) = downloaded)
  /\ (update_status (fst (check_and_download_updates e um)) = error
      <-> _is_app_running e = Raises).
Proof.
  split; [|split; [apply check_and_download_updates_runs|split]].
  - destruct (cycle_cases e um)
      as [(_ & _ & -> & _)|(_ & [(_ & -> & _)|[(_ & ->)|(_ & ->)]])]; auto.
  - destruct (cycle_cases e um)
      as [(_ & -> & -> & _)|(_ & [(-> & -> & _)|[(-> & ->)|(-> & ->)]])];
      split; (discriminate || reflexivity).
  - destruct (cycle_cases e um)
      as [(R & _ & -> & _)|(R & [(_ & -> & _)|[(_ & ->)|(_ & ->)]])];
      split; (discriminate || congruence || reflexivity).
Qed.

(** X22. A cycle that ends [up_to_date] or [error] has written no local
    file. *)
Theorem X22_idle_cycle_writes_nothing (e : env) (um : manager) :
  update_status (fst (check_and_download_updates e um)) = up_to_date
  \/ update_status (fst (check_and_download_updates e um)) = error ->
  fs (share_manager (fst (check_and_download_updates e um))) = fs (share_manager um).
Proof.
  destruct (cycle_cases e um)
    as [(_ & _ & _ & F)|(_ & [(_ & _ & F)|[(_ & ->)|(_ & ->)]])];
    try (intros _; exact F); intros [H|H]; discriminate.
Qed.

Lemma X22_witness :
  let e := world no_credentials data_listing complete 200 in
  fs (share_manager (fst (check_and_download_updates e (init (offline unmarked_dir)))))
  = unmarked_dir.
Proof.
  intros e.
  exact (X22_idle_cycle_writes_nothing e (init (offline unmarked_dir))
           (or_introl eq_refl)).
Defined.

(** X23. [check_updates] tests the tuple that [check_for_updates] returns,
    which is never empty: for every manager and every world it returns
    [True] and leaves the status [update_available], with the time of the
    call as the time of the last check, whatever [check_for_updates]
    reports. *)
Theorem X23_check_updates_always_available (e : env) (um : manager) :
  snd (check_updates e um) = true
  /\ update_status (fst (check_updates e um)) = update_available
  /\ last_check_time (fst (check_updates e um)) = Some (now e).
Proof.
  unfold check_updates.
  destruct (check_for_updates e _) as [s result]. cbn. auto.
Qed.

(** X24. When a cycle returns [True], the application is running and the
    flag file can be opened, the local directory holds the flag file
    [_UPDATE_AVAILABLE] with the time of the cycle as its text. *)
Theorem X24_flag_file_written (e : env) (um : manager) :
  snd (check_and_download_updates e um) = true ->
  _is_app_running e = Returns true ->
  open_raises e flag_file = false ->
  fs (share_manager (fst (check_and_download_updates e um))) !! flag_file
  = Some (File (isoformat e (now e)) (now e)).
Proof.
  unfold check_and_download_updates. intros H Happ Hopen. rewrite Happ in *.
  destruct (check_for_updates e _) as [s [has_updates updates_list]].
  destruct has_updates; cbn [negb] in *; [|discriminate].
  destruct (download_updates e updates_list _) as [s' success].
  destruct success; [|discriminate]. cbn [fst].
  unfold _notify_app_about_update. rewrite Hopen. cbn.
  apply lookup_insert_eq.
Qed.

Lemma X24_witness :
  let e := with_app_running (world stored newer_listing (served newer_listing) 200) in
  fs (share_manager (fst (check_and_download_updates e (fresh marked_dir))))
    !! "_UPDATE_AVAILABLE"
  = Some (File "1970-01-01T00:00:00" 200).
Proof.
  intros e.
  exact (X24_flag_file_written e (fresh marked_dir) eq_refl eq_refl eq_refl).
Defined.

(** X25. For an interval of [i] seconds that is not negative,
    [_setup_scheduler] plans whole hours when [i] is an hour or more, whole
    minutes when [i] is a minute or more, and otherwise seconds, at least
    30: the remainder is dropped, so the period planned is at most [i] and
    less than an hour, respectively a minute, shorter. *)
Theorem X25_scheduler_period (i : Z) :
  (0 <= i)%Z ->
  ((3600 <= i)%Z ->
   _setup_scheduler i = every_hours (i / 3600)
   /\ (i - 3600 < period (_setup_scheduler i) <= i)%Z)
  /\ ((60 <= i < 3600)%Z ->
      _setup_scheduler i = every_minutes (i / 60)
      /\ (i - 60 < period (_setup_scheduler i) <= i)%Z)
  /\ ((i < 60)%Z ->
      _setup_scheduler i = every_seconds (Z.max i 30)
      /\ (30 <= period (_setup_scheduler i))%Z
      /\ (i <= period (_setup_scheduler i))%Z).
Proof.
  intros Hi. unfold _setup_scheduler.
  pose proof (Z.div_mod i 3600 ltac:(lia)) as D1.
  pose proof (Z.mod_pos_bound i 3600 ltac:(lia)) as B1.
  pose proof (Z.div_mod i 60 ltac:(lia)) as D2.
  pose proof (Z.mod_pos_bound i 60 ltac:(lia)) as B2.
  split; [|split].
  - intros H. assert (0 < i / 3600)%Z by (apply Z.div_str_pos; lia).
    destruct (Z.ltb_spec 0 (i / 3600)); [|lia]. cbn [period]. split; [reflexivity|lia].
  - intros H. rewrite (Z.div_small i 3600), (Z.mod_small i 3600) by lia.
    cbn [Z.ltb Z.compare].
    assert (0 < i / 60)%Z by (apply Z.div_str_pos; lia).
    destruct (Z.ltb_spec 0 (i / 60)); [|lia]. cbn [period]. split; [reflexivity|lia].
  - intros H. rewrite (Z.div_small i 3600), (Z.mod_small i 3600) by lia.
    rewrite (Z.div_small i 60) by lia. cbn [Z.ltb Z.compare period].
    split; [reflexivity|lia].
Qed.

Lemma X25_witness :
  _setup_scheduler 5400 = every_hours 1
  /\ period (_setup_scheduler 5400) = 3600%Z
  /\ _setup_scheduler 300 = every_minutes 5
  /\ _setup_scheduler 10 = every_seconds 30.
Proof.
  destruct (X25_scheduler_period 5400 ltac:(lia)) as (H & _ & _).
  destruct (H ltac:(lia)) as [E _].
  split; [exact E|]. repeat split; reflexivity.
Defined.

(** X26. Over an open session, [download_updates] called without a list
    decides by itself: it returns [True] and transfers nothing when
    [check_for_updates] finds no candidate, and otherwise does what it does
    on the list of the candidates. *)
Theorem X26_download_updates_without_list (e : env) (s : state) :
  connected s = true -> connection s = true ->
  download_updates e [] s
  = match snd (snd (check_for_updates e s)) with
    | [] => (s, true)
    | candidates => download_updates e candidates s
    end.
Proof.
  intros C N. unfold download_updates at 1.
  rewrite (ensure_connected_open e s C N). cbn [negb].
  rewrite (check_for_updates_open e s C N). cbn [snd].
  destruct (has_newer_version e s); [|reflexivity].
  destruct (List.filter _ _) as [|u l] eqn:E; [reflexivity|].
  cbn [List.length Nat.ltb Nat.leb negb].
  unfold download_updates. now rewrite (ensure_connected_open e s C N).
Qed.

Lemma X26_witness :
  let e := world stored current_listing (served current_listing) 200 in
  download_updates e [] (online marked_dir) = (online marked_dir, true).
Proof.
  intros e.
  exact (X26_download_updates_without_list e (online marked_dir) eq_refl eq_refl).
Defined.
